(** * omni-chat: the meta-discussion aggregation engine

    A shallow embedding of [src/meta-discussion.ts] (class [MetaDiscussion])
    and of [src/user.ts] (class [User]), with the properties of the
    specification stated over it.

    Conventions of the embedding.
    - A [Date] is the integer returned by [getTime()] (milliseconds), a [Z].
      A [Date | null] field is an [option Z]; a [Date] object is always
      truthy, so [if (x.removed)] is a test for [Some].
    - A Bluebird promise is its outcome: [Ok v] when it fulfils with [v],
      [Err e] when it rejects with [e].  [Bluebird.map] and [Bluebird.all]
      over a list fulfil with the list of values when every element fulfils
      and reject with the first rejection otherwise ([mapM]); the callbacks
      of the elements are run in registry order.
    - Arrays are lists, read with [l !! i], updated with [<[i:=x]> l],
      and [splice(j, 1)] is [delete j l].
    - The collaborators that are not part of these two files (the simple
      discussion, the user account) are an interface: a type class whose
      operations the code calls.
    - An object that several callees share and that the code overwrites
      between their calls is given to a callee as the two states it can
      read: the state at its call, and the state once the synchronous code
      that makes the calls has run, which is what a callee reads after an
      asynchronous step. *)

From Stdlib Require Import ZArith Lia Sorted.
From stdpp Require Import base list strings.

Local Open Scope Z_scope.

(** ** Identifiers, incidents, outcomes *)

Definition AccountGlobalId := string.
Definition DiscussionGlobalId := string.

(** The [Incident]s the two classes raise, by their name (first argument of
    [new Incident(...)]), and [External] for a rejection that comes from a
    collaborator (a driver, a simple discussion, an account). *)
Inductive Incident :=
| UnknownContact            (* "Unknown contact" *)
| AlreadyExisting           (* "Already existing" *)
| EmptyMetaDiscussion       (* "Empty meta-discussion" *)
| NoSuchDiscussion          (* "No such discussion" *)
| ContactUnknownByUser      (* "One of the contacts is unknown by the current user." *)
| External (reason : string).

Inductive Result (A : Type) :=
| Ok (value : A)
| Err (incident : Incident).
Arguments Ok {A} value.
Arguments Err {A} incident.

Definition bind {A B} (r : Result A) (k : A -> Result B) : Result B :=
  match r with
  | Ok v => k v
  | Err e => Err e
  end.

Notation "x <- r ;; k" := (bind r (fun x => k))
  (at level 100, r at next level, right associativity).

(** [Bluebird.map(l, f)] / [Bluebird.all(_.map(l, f))]. *)
Fixpoint mapM {A B} (f : A -> Result B) (l : list A) : Result (list B) :=
  match l with
  | [] => Ok []
  | x :: xs => y <- f x ;; ys <- mapM f xs ;; Ok (y :: ys)
  end.

(** ** Data model *)

Record ContactAccount := {
  contactGlobalId : AccountGlobalId
}.

(** A single-protocol message: the getters [getBody] and [getCreationDate]
    are fields; [messageRef] tells two message objects apart. *)
Record SimpleMessage := {
  messageRef : nat;
  body : string;
  creationDate : Z
}.

(** Modelled from the spec: [simple-message.ts] is not among the sources;
    [hasTheSameBodyAs] is "a body-equality check against another message". *)
Definition hasTheSameBodyAs (m other : SimpleMessage) : bool :=
  String.eqb (body m) (body other).

(** Modelled from the spec: [meta-message.ts] is not among the sources; a
    Meta-Message is "an ordered, non-empty collection of Simple Messages",
    and "[merge] is the only mutator, appending another Meta-Message's
    constituents". *)
Record MetaMessage := {
  constituents : list SimpleMessage
}.

Definition newMetaMessage (msgs : list SimpleMessage) : MetaMessage :=
  {| constituents := msgs |}.

Definition mergeMeta (meta other : MetaMessage) : MetaMessage :=
  {| constituents := constituents meta ++ constituents other |}.

(** A single-protocol discussion, by the three getters the code reads:
    [getGlobalId()], [getDriverName()] and
    [getLocalUserAccount().then(acc => acc.getGlobalId())]. *)
Record SimpleDiscussion := {
  discussionGlobalId : DiscussionGlobalId;
  driverName : string;
  localAccountId : AccountGlobalId
}.

Record GetMessagesOptions := {
  maxMessages : Z;
  afterDate : option Z;
  messageFilter : option (SimpleMessage -> bool)
}.

(** The options object handed to [SimpleDiscussion.getMessages].
    [getMessages] has one such object, hands it to every sub-discussion and
    overwrites its [afterDate] and [filter] before each call, inside a
    synchronous [_.map]: [atCall] is the object as the call finds it, and
    [settled] the object as the [_.map] leaves it, which is what the callee
    reads after its first asynchronous step. *)
Record SharedOptions := {
  atCall : GetMessagesOptions;
  settled : GetMessagesOptions
}.

Record GetParticipantsOptions := {
  maxParticipants : option Z
}.

Record NewMessage := {
  newBody : string
}.

(** The operations of [SimpleDiscussion] that [MetaDiscussion] calls. *)
Class SimpleDiscussionOps := {
  sd_getMessages : SimpleDiscussion -> SharedOptions -> Result (list SimpleMessage);
  sd_getParticipants :
    SimpleDiscussion -> option GetParticipantsOptions -> Result (list ContactAccount);
  sd_sendMessage : SimpleDiscussion -> NewMessage -> Result SimpleMessage;
  sd_addParticipant : SimpleDiscussion -> ContactAccount -> Result unit;
  sd_localHasContact : SimpleDiscussion -> ContactAccount -> bool;
  sd_merge : SimpleDiscussion -> SimpleDiscussion -> SimpleDiscussion;
  sd_isTheSameAs : SimpleDiscussion -> SimpleDiscussion -> bool
}.

(** [interface Subdiscussion { subdiscussion; added; removed }] *)
Record Subdiscussion := {
  subdiscussion : SimpleDiscussion;
  added : Z;
  removed : option Z
}.

(** An account of the user; [accountRef] is the identity of the object
    (what [!==] compares), [accountGlobalId] its durable id. *)
Record UserAccount := {
  accountRef : nat;
  accountGlobalId : AccountGlobalId
}.

Record User := {
  globalUsername : string;
  accounts : list UserAccount
}.

(** The operations of [UserAccountInterface] that the two classes call;
    [ua_createDiscussion] is [getOrCreateApi()] followed by
    [api.createDiscussion(ids)] and the wrapping [new SimpleDiscussion]. *)
Class UserAccountOps := {
  ua_getContactAccounts : UserAccount -> Result (list ContactAccount);
  ua_hasContact : UserAccount -> ContactAccount -> bool;
  ua_getOrCreateDiscussion : UserAccount -> list ContactAccount -> Result SimpleDiscussion;
  ua_createDiscussion : UserAccount -> list AccountGlobalId -> Result SimpleDiscussion
}.

Record MetaDiscussion := {
  owner : User;
  metaId : string;
  subDiscussions : list Subdiscussion;
  listening : bool
}.

Definition withSubDiscussions (md : MetaDiscussion) (subs : list Subdiscussion)
    : MetaDiscussion :=
  {| owner := owner md; metaId := metaId md; subDiscussions := subs;
     listening := listening md |}.

Definition isActive (entry : Subdiscussion) : bool :=
  match removed entry with
  | Some _ => false
  | None => true
  end.

(** [getSubDiscussions()]: the discussion of every registry entry, removed
    or not. *)
Definition getSubDiscussions (md : MetaDiscussion) : list SimpleDiscussion :=
  map subdiscussion (subDiscussions md).

(** [getDatedSubdiscussions()] *)
Definition getDatedSubdiscussions (md : MetaDiscussion) : list Subdiscussion :=
  subDiscussions md.

(** ** getMessages *)

Record DatedMessage := {
  msg : SimpleMessage;
  date : Z
}.

Record DatedRemovable := {
  dr_msg : SimpleMessage;
  dr_date : Z;
  dr_removed : option Z
}.

(** [_.sortBy(messages, ['date'])]: a stable ascending sort on the date. *)
Fixpoint insertByDate (x : DatedMessage) (l : list DatedMessage) : list DatedMessage :=
  match l with
  | [] => [x]
  | y :: l' => if date x <=? date y then x :: y :: l' else y :: insertByDate x l'
  end.

Fixpoint sortByDate (l : list DatedMessage) : list DatedMessage :=
  match l with
  | [] => []
  | x :: l' => insertByDate x (sortByDate l')
  end.

(** The fixed window of the duplicate scan, [5 * 1000 * 60]. *)
Definition mergeWindow : Z := 5 * 1000 * 60.

(** The inner loop, [for (j = i + 1; j < datedMsgs.length; j++)].
    [fuel] bounds the number of iterations; [length datedMsgs - j] is
    enough, since an iteration either advances [j] or removes an element. *)
Fixpoint scanFrom (fuel : nat) (message : DatedMessage)
    (datedMsgs : list DatedMessage) (j : nat) (meta : MetaMessage)
    : list DatedMessage * MetaMessage :=
  match fuel with
  | O => (datedMsgs, meta)
  | S fuel' =>
    match datedMsgs !! j with
    | None => (datedMsgs, meta)
    | Some candidate =>
      if date message >? date candidate + mergeWindow then (datedMsgs, meta)
      else if hasTheSameBodyAs (msg message) (msg candidate) then
        let tempMeta := newMetaMessage [msg candidate] in
        scanFrom fuel' message (delete j datedMsgs) j (mergeMeta meta tempMeta)
      else scanFrom fuel' message datedMsgs (S j) meta
    end
  end.

(** The outer loop, [for (i = 0; i < datedMsgs.length; i++)]. *)
Fixpoint sweepFrom (fuel : nat) (datedMsgs : list DatedMessage) (i : nat)
    (metaMessages : list MetaMessage) : list MetaMessage :=
  match fuel with
  | O => metaMessages
  | S fuel' =>
    match datedMsgs !! i with
    | None => metaMessages
    | Some message =>
      let meta := newMetaMessage [msg message] in
      let '(datedMsgs', meta') :=
        scanFrom (length datedMsgs) message datedMsgs (S i) meta in
      sweepFrom fuel' datedMsgs' (S i) (metaMessages ++ [meta'])
    end
  end.

Definition deduplicate (datedMsgs : list DatedMessage) : list MetaMessage :=
  sweepFrom (length datedMsgs) datedMsgs 0%nat [].

(** The same two loops read on the part of the array they still have to
    visit.  [scan message cands] gives the candidates folded into the
    group of [message] and the candidates left in the array; [sweep] opens
    a group for the first message left and goes on with what the scan
    left.  [scanFrom_scan] and [sweepFrom_sweep] relate them to the loops. *)
Fixpoint scan (message : DatedMessage) (cands : list DatedMessage)
    : list DatedMessage * list DatedMessage :=
  match cands with
  | [] => ([], [])
  | c :: cs =>
    if date message >? date c + mergeWindow then ([], c :: cs)
    else
      let '(folded, kept) := scan message cs in
      if hasTheSameBodyAs (msg message) (msg c) then (c :: folded, kept)
      else (folded, c :: kept)
  end.

Fixpoint sweep (fuel : nat) (l : list DatedMessage) : list MetaMessage :=
  match fuel, l with
  | S fuel', m :: rest =>
    let '(folded, kept) := scan m rest in
    newMetaMessage (msg m :: map msg folded) :: sweep fuel' kept
  | _, _ => []
  end.

Definition byDate (a b : DatedMessage) : Prop := date a <= date b.

(** A message of the pool carries the creation time of its message. *)
Definition wellDated (d : DatedMessage) : Prop := date d = creationDate (msg d).

(** The creation time of the earliest member of a Meta-Message. *)
Definition earliestDate (mm : MetaMessage) : Z :=
  match constituents mm with
  | [] => 0
  | m :: ms => fold_right Z.min (creationDate m) (map creationDate ms)
  end.

(** The messages of the Meta-Messages of a result, in order. *)
Definition allConstituents (out : list MetaMessage) : list SimpleMessage :=
  concat (map constituents out).

Definition defaultOptions : GetMessagesOptions :=
  {| maxMessages := 20; afterDate := None; messageFilter := None |}.

Definition keepBeforeRemoval (d : DatedRemovable) : bool :=
  match dr_removed d with
  | Some r => dr_date d <? r
  | None => true
  end.

(** Modelled from the spec: [simple-discussion.ts] is not among the
    sources.  Its [getMessages(options)] fetches "with the retrieval window
    bounded below by" [options.afterDate]: "messages sent before the
    account joined this meta-discussion are excluded".  This is the
    contract for a sub-discussion that reads [options.afterDate] during the
    call. *)
Definition honoursAfterDate (ops : SimpleDiscussionOps) : Prop :=
  forall discussion opts fetched m t,
    sd_getMessages discussion opts = Ok fetched ->
    In m fetched ->
    afterDate (atCall opts) = Some t ->
    t <= creationDate m.

(** Modelled from the spec: the same contract for a sub-discussion that
    reads [options.afterDate] after an asynchronous step. *)
Definition honoursSettledAfterDate (ops : SimpleDiscussionOps) : Prop :=
  forall discussion opts fetched m t,
    sd_getMessages discussion opts = Ok fetched ->
    In m fetched ->
    afterDate (settled opts) = Some t ->
    t <= creationDate m.

(** Modelled from the spec: the "protocol-specific merge" of
    [SimpleDiscussion.merge] folds the other discussion into this one,
    which stays the discussion of the same driver and local account. *)
Definition mergeKeepsOwner (ops : SimpleDiscussionOps) : Prop :=
  forall discussion other,
    driverName (sd_merge discussion other) = driverName discussion /\
    localAccountId (sd_merge discussion other) = localAccountId discussion.

Section WithSimpleDiscussions.
Context `{SimpleDiscussionOps}.

(** The object [opts] as the callback of an entry sets it before the fetch:
    [opts.afterDate = discuss.added; opts.filter = smallFilter]. *)
Definition entryOptions (opts0 : GetMessagesOptions)
    (smallFilter : option (SimpleMessage -> bool)) (discuss : Subdiscussion)
    : GetMessagesOptions :=
  {| maxMessages := maxMessages opts0; afterDate := Some (added discuss);
     messageFilter := smallFilter |}.

(** The object [opts] once [_.map] has run the callback of every entry: as
    the callback of the last entry set it, and as it was before with no
    entry.  When the caller gave [options], [opts] is that very object, and
    this is the state the call leaves it in. *)
Definition settledOptions (opts0 : GetMessagesOptions)
    (smallFilter : option (SimpleMessage -> bool)) (subdiscuss : list Subdiscussion)
    : GetMessagesOptions :=
  match last subdiscuss with
  | Some discuss => entryOptions opts0 smallFilter discuss
  | None => opts0
  end.

(** What the fetch of an entry is given. *)
Definition sharedOptions (opts0 : GetMessagesOptions)
    (smallFilter : option (SimpleMessage -> bool)) (subdiscuss : list Subdiscussion)
    (discuss : Subdiscussion) : SharedOptions :=
  {| atCall := entryOptions opts0 smallFilter discuss;
     settled := settledOptions opts0 smallFilter subdiscuss |}.

(** What one registry entry contributes to the pool; [subdiscuss] is the
    registry the [_.map] runs over. *)
Definition entryMessages (opts0 : GetMessagesOptions)
    (smallFilter : option (SimpleMessage -> bool)) (subdiscuss : list Subdiscussion)
    (discuss : Subdiscussion) : Result (list DatedMessage) :=
  let opts := sharedOptions opts0 smallFilter subdiscuss discuss in
  fetched <- sd_getMessages (subdiscussion discuss) opts ;;
  let datedMsgs :=
    map (fun m => {| dr_msg := m; dr_date := creationDate m;
                     dr_removed := removed discuss |}) fetched in
  let kept := List.filter keepBeforeRemoval datedMsgs in
  Ok (map (fun d => {| msg := dr_msg d; date := dr_date d |}) kept).

(** The pool [messages] once every entry has been fetched. *)
Definition survivingMessages (md : MetaDiscussion)
    (options : option GetMessagesOptions) : Result (list DatedMessage) :=
  let opts0 := match options with Some o => o | None => defaultOptions end in
  let smallFilter :=
    match options with Some o => messageFilter o | None => None end in
  perEntry <- mapM (entryMessages opts0 smallFilter (getDatedSubdiscussions md))
                   (getDatedSubdiscussions md) ;;
  Ok (concat perEntry).

Definition getMessages (md : MetaDiscussion)
    (options : option GetMessagesOptions) : Result (list MetaMessage) :=
  messages <- survivingMessages md options ;;
  Ok (deduplicate (sortByDate messages)).

(** ** getParticipants *)

(** [_.concat(array, values)] returns a new array and leaves its
    arguments as they are. *)
Definition lodash_concat {A} (array values : list A) : list A := array ++ values.

(** [parts.slice(0, stop)] *)
Definition slice0 {A} (parts : list A) (stop : Z) : list A :=
  if stop <? 0 then take (Z.to_nat (Z.of_nat (length parts) + stop)) parts
  else take (Z.to_nat stop) parts.

(** [options && options.maxParticipants]: the bound when it is truthy. *)
Definition truthyMax (options : option GetParticipantsOptions) : option Z :=
  match options with
  | Some o =>
    match maxParticipants o with
    | Some m => if m =? 0 then None else Some m
    | None => None
    end
  | None => None
  end.

(** The callback run on the participants of one sub-discussion, on the
    variables [part] and [counter] of the enclosing call. *)
Definition collectParticipants (options : option GetParticipantsOptions)
    (st : list ContactAccount * Z) (parts : list ContactAccount)
    : list ContactAccount * Z :=
  let '(part, counter) := st in
  let len := Z.of_nat (length parts) in
  match truthyMax options with
  | Some max =>
    if counter + len <? max then
      let _ := lodash_concat part parts in
      (part, counter + len)
    else if negb (counter =? max) then
      let _ := lodash_concat part (slice0 parts (max - counter)) in
      (part, counter + (max - counter))
    else (part, counter)
  | None =>
    let _ := lodash_concat part parts in
    (part, counter + len)
  end.

Definition getParticipants (md : MetaDiscussion)
    (options : option GetParticipantsOptions) : Result (list ContactAccount) :=
  fetched <- mapM (fun discuss => sd_getParticipants discuss options)
                  (getSubDiscussions md) ;;
  Ok (fst (fold_left (collectParticipants options) fetched ([], 0))).

(** ** isHeterogeneous *)

(** The active sub-discussions, in the words of the specification: the
    discussions of the entries with no [removed] date. *)
Definition activeSubDiscussions (md : MetaDiscussion) : list SimpleDiscussion :=
  map subdiscussion (List.filter isActive (subDiscussions md)).

(** Two discussions that differ in driver name or in local account. *)
Definition differ (a b : SimpleDiscussion) : Prop :=
  driverName a <> driverName b \/ localAccountId a <> localAccountId b.

(** [for (let x of xs) { if (x !== first) { heterogeneous = true; break; } }] *)
Fixpoint differsFromFirst (first : string) (xs : list string) : bool :=
  match xs with
  | [] => false
  | x :: xs' => if negb (String.eqb x first) then true else differsFromFirst first xs'
  end.

Definition anyDiffers (xs : list string) : bool :=
  match xs with
  | [] => false
  | first :: _ => differsFromFirst first xs
  end.

Definition isHeterogeneous (md : MetaDiscussion) : bool :=
  if (length (subDiscussions md) =? 0)%nat then false
  else
    let protocols := map driverName (getSubDiscussions md) in
    let userAccountIDs := map localAccountId (getSubDiscussions md) in
    let heterogeneous := anyDiffers protocols in
    if negb heterogeneous then anyDiffers userAccountIDs else heterogeneous.

(** ** addSubdiscussion and removeSubdiscussion

    The two operations change the registry of [this] in place and settle
    a promise: they are given as the meta-discussion after the call and
    the outcome of the promise. *)

(** An active entry of the given driver and local account. *)
Definition ownedBy (protocol : string) (accountID : AccountGlobalId)
    (entry : Subdiscussion) : bool :=
  String.eqb (driverName (subdiscussion entry)) protocol
  && String.eqb (localAccountId (subdiscussion entry)) accountID
  && isActive entry.

(** The invariant of the registry in the data model: "at most one active
    entry exists per (driver, owning local account) pair". *)
Definition atMostOneActive (subs : list Subdiscussion) : Prop :=
  forall protocol accountID,
    (length (List.filter (ownedBy protocol accountID) subs) <= 1)%nat.

(** The number of active entries of a (driver, local account) pair. *)
Definition activeCount (protocol : string) (accountID : AccountGlobalId)
    (subs : list Subdiscussion) : nat :=
  length (List.filter (ownedBy protocol accountID) subs).

(** [for (let id of ids) { if (id === subdiscussID) return reject }] *)
Fixpoint containsId (subdiscussID : DiscussionGlobalId)
    (ids : list DiscussionGlobalId) : bool :=
  match ids with
  | [] => false
  | id :: ids' => if String.eqb id subdiscussID then true else containsId subdiscussID ids'
  end.

Definition mergedEntry (entry : Subdiscussion) (incoming : SimpleDiscussion)
    : Subdiscussion :=
  {| subdiscussion := sd_merge (subdiscussion entry) incoming;
     added := added entry; removed := removed entry |}.

(** [for (i = 0; i < protocols.length; i++)], with [n] iterations left;
    the three arrays have the length of the registry, so the three reads
    succeed together.  Returns the registry and [found]. *)
Fixpoint mergeLoop (n i : nat) (protocols : list string)
    (userAccountIDs : list AccountGlobalId) (protocol : string)
    (accountID : AccountGlobalId) (incoming : SimpleDiscussion)
    (subs : list Subdiscussion) : list Subdiscussion * bool :=
  match n with
  | O => (subs, false)
  | S n' =>
    match protocols !! i, userAccountIDs !! i, subs !! i with
    | Some p, Some a, Some entry =>
      if String.eqb p protocol && String.eqb a accountID && isActive entry
      then (<[i := mergedEntry entry incoming]> subs, true)
      else mergeLoop n' (S i) protocols userAccountIDs protocol accountID incoming subs
    | _, _, _ => (subs, false)
    end
  end.

Definition addSubdiscussion (md : MetaDiscussion) (subDiscussion : SimpleDiscussion)
    (now : Z) : MetaDiscussion * Result unit :=
  let protocol := driverName subDiscussion in
  let accountID := localAccountId subDiscussion in
  let subdiscussID := discussionGlobalId subDiscussion in
  let subdiscussions := getSubDiscussions md in
  let protocols := map driverName subdiscussions in
  let subdiscussionsIDs := map discussionGlobalId subdiscussions in
  let userAccountIDs := map localAccountId subdiscussions in
  if containsId subdiscussID subdiscussionsIDs then (md, Err AlreadyExisting)
  else
    let '(subs, found) :=
      mergeLoop (length protocols) 0 protocols userAccountIDs protocol accountID
                subDiscussion (subDiscussions md) in
    if negb found then
      (withSubDiscussions md
         (subs ++ [{| subdiscussion := subDiscussion; added := now;
                      removed := None |}]),
       Ok tt)
    else (withSubDiscussions md subs, Ok tt).

(** The loop read on the entries it still has to visit: the entries with
    the first active one of the driver and account merged, if there is
    one.  [mergeLoop_mergeFirst] relates the two. *)
Fixpoint mergeFirst (protocol : string) (accountID : AccountGlobalId)
    (incoming : SimpleDiscussion) (subs : list Subdiscussion)
    : option (list Subdiscussion) :=
  match subs with
  | [] => None
  | entry :: rest =>
    if String.eqb (driverName (subdiscussion entry)) protocol
       && String.eqb (localAccountId (subdiscussion entry)) accountID
       && isActive entry
    then Some (mergedEntry entry incoming :: rest)
    else option_map (cons entry) (mergeFirst protocol accountID incoming rest)
  end.

Definition truthy (n : Z) : bool := negb (n =? 0).

Definition markRemoved (entry : Subdiscussion) (now : Z) : Subdiscussion :=
  {| subdiscussion := subdiscussion entry; added := added entry;
     removed := Some now |}.

(** [for (let i: number; i = 0; i++)]: the test of the loop is the
    assignment [i = 0], which stores 0 in [i] and has the value 0.
    [fuel] bounds the number of tests.  Returns the registry and [found]. *)
Fixpoint removeLoop (fuel : nat) (sames : list bool) (now : Z)
    (subs : list Subdiscussion) : list Subdiscussion * bool :=
  match fuel with
  | O => (subs, false)
  | S fuel' =>
    let i := 0 in
    if truthy i then
      match sames !! Z.to_nat i, subs !! Z.to_nat i with
      | Some true, Some entry =>
        if isActive entry
        then (<[Z.to_nat i := markRemoved entry now]> subs, true)
        else removeLoop fuel' sames now subs
      | _, _ => removeLoop fuel' sames now subs
      end
    else (subs, false)
  end.

Definition removeSubdiscussion (md : MetaDiscussion) (subDiscussion : SimpleDiscussion)
    (now : Z) : MetaDiscussion * Result unit :=
  if (length (subDiscussions md) =? 0)%nat then (md, Err EmptyMetaDiscussion)
  else
    let sames :=
      map (fun subdiscuss => sd_isTheSameAs subDiscussion (subdiscussion subdiscuss))
          (getDatedSubdiscussions md) in
    let '(subs, found) := removeLoop (S (length sames)) sames now (subDiscussions md) in
    if negb found then (withSubDiscussions md subs, Err NoSuchDiscussion)
    else (withSubDiscussions md subs, Ok tt).

(** ** The relay: dispatchFrom and the handler of attachEventsTo *)

(** The sub-discussions the incoming message is relayed to: every registry
    entry whose discussion id is not the id of the source. *)
Definition relayTargets (md : MetaDiscussion) (discussionSource : SimpleDiscussion)
    : list SimpleDiscussion :=
  List.filter
    (fun subdiscuss =>
       negb (String.eqb (discussionGlobalId subdiscuss)
                        (discussionGlobalId discussionSource)))
    (getSubDiscussions md).

Definition relayedMessage (messageSource : SimpleMessage) : NewMessage :=
  {| newBody := String.append ">>" (body messageSource) |}.

(** What one handling of an incoming message does: the [sendMessage] calls
    it makes, and the promise of the Meta-Message. *)
Record Relay := {
  sends : list (SimpleDiscussion * NewMessage);
  relayed : Result MetaMessage
}.

Definition dispatchFrom (md : MetaDiscussion) (discussionSource : SimpleDiscussion)
    (messageSource : SimpleMessage) : Relay :=
  let targets := relayTargets md discussionSource in
  let newMessage := relayedMessage messageSource in
  {| sends := map (fun okSubdiscussion => (okSubdiscussion, newMessage)) targets;
     relayed :=
       subMessages <-
         mapM (fun okSubdiscussion => sd_sendMessage okSubdiscussion newMessage)
              targets ;;
       Ok (newMetaMessage (subMessages ++ [messageSource])) |}.

(** [{type: "message", message: metaMessage}] *)
Record MessageEvent := {
  eventType : string;
  eventMessage : MetaMessage
}.

(** The handler that [attachEventsTo(discussion)] subscribes to the
    "message" event of [discussion]: the sends it makes and the events it
    emits on the meta-discussion.  The promise of [dispatchFrom] has one
    [then] and no rejection handler. *)
Definition onMessage (md : MetaDiscussion) (discussion : SimpleDiscussion)
    (message : SimpleMessage) : list (SimpleDiscussion * NewMessage) * list MessageEvent :=
  let relay := dispatchFrom md discussion message in
  (sends relay,
   match relayed relay with
   | Ok metaMessage => [{| eventType := "message"; eventMessage := metaMessage |}]
   | Err _ => []
   end).

(** The event in the words of the specification: "a failed sibling send
    is omitted from the resulting Meta-Message", which holds the sends
    that succeeded and the original. *)
Definition successfulSends (md : MetaDiscussion) (discussionSource : SimpleDiscussion)
    (messageSource : SimpleMessage) : list SimpleMessage :=
  flat_map
    (fun okSubdiscussion =>
       match sd_sendMessage okSubdiscussion (relayedMessage messageSource) with
       | Ok sent => [sent]
       | Err _ => []
       end)
    (relayTargets md discussionSource).

Definition absorbingEvent (md : MetaDiscussion) (discussionSource : SimpleDiscussion)
    (messageSource : SimpleMessage) : MessageEvent :=
  {| eventType := "message";
     eventMessage :=
       newMetaMessage
         (successfulSends md discussionSource messageSource ++ [messageSource]) |}.

End WithSimpleDiscussions.

(** ** addParticipant and User.getOrCreateDiscussion *)

(** An account knows one of the target contacts: the id of a target is
    among the ids of its contacts. *)
Definition knowsOneOf (ids : list AccountGlobalId) (targets : list ContactAccount)
    : Prop :=
  exists contact, In contact targets /\ In (contactGlobalId contact) ids.

Inductive Discussion :=
| Simple (discussion : SimpleDiscussion)
| Meta (discussion : MetaDiscussion).

(** [{user: account, contactsIDs: ids}] *)
Record FullUserAccount := {
  fua_user : UserAccount;
  fua_contactsIDs : list AccountGlobalId
}.

(** [ids.indexOf(contactID) >= 0] *)
Fixpoint indexOfFound (ids : list AccountGlobalId) (contactID : AccountGlobalId) : bool :=
  match ids with
  | [] => false
  | id :: ids' => if String.eqb id contactID then true else indexOfFound ids' contactID
  end.

(** [rightUser !== userAccount.user] compares the two objects. *)
Definition sameAccountObject (a b : UserAccount) : bool :=
  (accountRef a =? accountRef b)%nat.

(** [for (let contactID of contactsIDs)] for one account: the new value of
    [rightUser], and [heterogeneous] (set just before the [break]). *)
Fixpoint scanContacts (userAccount : FullUserAccount)
    (contactsIDs : list AccountGlobalId) (rightUser : option UserAccount)
    : option UserAccount * bool :=
  match contactsIDs with
  | [] => (rightUser, false)
  | contactID :: rest =>
    if indexOfFound (fua_contactsIDs userAccount) contactID then
      match rightUser with
      | Some r =>
        if negb (sameAccountObject r (fua_user userAccount)) then (rightUser, true)
        else scanContacts userAccount rest (Some (fua_user userAccount))
      | None => scanContacts userAccount rest (Some (fua_user userAccount))
      end
    else scanContacts userAccount rest rightUser
  end.

(** [for (let userAccount of fullUserAccounts)] *)
Fixpoint scanAccounts (fullUserAccounts : list FullUserAccount)
    (contactsIDs : list AccountGlobalId) (rightUser : option UserAccount)
    : option UserAccount * bool :=
  match fullUserAccounts with
  | [] => (rightUser, false)
  | userAccount :: rest =>
    let '(rightUser', heterogeneous) := scanContacts userAccount contactsIDs rightUser in
    if heterogeneous then (rightUser', true)
    else scanAccounts rest contactsIDs rightUser'
  end.

(** [getAccounts()] as these methods call it, without [driverNames]. *)
Definition getAccounts (u : User) : list UserAccount := accounts u.

Section WithAccounts.
Context `{SimpleDiscussionOps} `{UserAccountOps}.

(** [MetaDiscussion.addParticipant]; the subscription made when the
    meta-discussion is listening leaves the registry as it is. *)
Definition addParticipant (md : MetaDiscussion) (contactAccount : ContactAccount)
    (now : Z) : Result MetaDiscussion :=
  let discussions :=
    List.filter (fun discu => sd_localHasContact discu contactAccount)
                (getSubDiscussions md) in
  match discussions with
  | first :: _ => _ <- sd_addParticipant first contactAccount ;; Ok md
  | [] =>
    let compatibleUserAccounts :=
      List.filter (fun userAccount => ua_hasContact userAccount contactAccount)
                  (getAccounts (owner md)) in
    match compatibleUserAccounts with
    | [] => Err UnknownContact
    | account :: _ =>
      newSubdiscuss <- ua_createDiscussion account [contactGlobalId contactAccount] ;;
      Ok (withSubDiscussions md
            (subDiscussions md ++
             [{| subdiscussion := newSubdiscuss; added := now; removed := None |}]))
    end
  end.

(** The accounts with the ids of their contacts. *)
Definition fullAccounts (u : User) : Result (list FullUserAccount) :=
  mapM (fun account =>
          contactAccounts <- ua_getContactAccounts account ;;
          Ok {| fua_user := account;
                fua_contactsIDs := map contactGlobalId contactAccounts |})
       (getAccounts u).

(** [User.getOrCreateDiscussion]; [uuid] is the id drawn for a new
    meta-discussion and [now] the clock.  [_.map] starts the addition of
    every target on the new meta-discussion while its registry is empty:
    each addition decides on the empty registry and pushes its own entry
    on the meta-discussion, and [Bluebird.all] waits for them all.  The
    entries are taken in the order of the targets. *)
Definition getOrCreateDiscussion (u : User) (contactAccounts : list ContactAccount)
    (uuid : string) (now : Z) : Result Discussion :=
  let contactsIDs := map contactGlobalId contactAccounts in
  fullUserAccounts <- fullAccounts u ;;
  let '(rightUser, heterogeneous) := scanAccounts fullUserAccounts contactsIDs None in
  match rightUser with
  | None => Err ContactUnknownByUser
  | Some account =>
    if heterogeneous then
      let discussion :=
        {| owner := u; metaId := uuid; subDiscussions := []; listening := false |} in
      each <-
        mapM (fun contactAccount => addParticipant discussion contactAccount now)
             contactAccounts ;;
      Ok (Meta (withSubDiscussions discussion (concat (map subDiscussions each))))
    else
      d <- ua_getOrCreateDiscussion account contactAccounts ;;
      Ok (Simple d)
  end.

End WithAccounts.

(** ** An in-memory backend

    A small implementation of the two interfaces, used to run the
    operations on concrete discussions. *)

Module Memory.

Definition discussionX : SimpleDiscussion :=
  {| discussionGlobalId := "x:d1"; driverName := "x"; localAccountId := "x:me" |}.
Definition discussionY : SimpleDiscussion :=
  {| discussionGlobalId := "y:d1"; driverName := "y"; localAccountId := "y:me" |}.
Definition discussionZ : SimpleDiscussion :=
  {| discussionGlobalId := "z:d1"; driverName := "z"; localAccountId := "z:me" |}.
Definition discussionX2 : SimpleDiscussion :=
  {| discussionGlobalId := "x:d2"; driverName := "x"; localAccountId := "x:me" |}.

Definition hello : SimpleMessage :=
  {| messageRef := 1; body := "hi"; creationDate := 0 |}.
Definition question : SimpleMessage :=
  {| messageRef := 2; body := "how are you"; creationDate := 1000 |}.
Definition helloAgain : SimpleMessage :=
  {| messageRef := 3; body := "hi"; creationDate := 600000 |}.
Definition early : SimpleMessage :=
  {| messageRef := 4; body := "early"; creationDate := -5 |}.
Definition late : SimpleMessage :=
  {| messageRef := 5; body := "late"; creationDate := 800000 |}.

(** The messages each discussion holds. *)
Definition stream (discussion : SimpleDiscussion) : list SimpleMessage :=
  if String.eqb (discussionGlobalId discussion) "x:d1" then [hello; question]
  else if String.eqb (discussionGlobalId discussion) "y:d1"
       then [early; helloAgain; late]
  else [].

Definition alice : ContactAccount := {| contactGlobalId := "x:alice" |}.
Definition bob : ContactAccount := {| contactGlobalId := "y:bob" |}.
Definition carol : ContactAccount := {| contactGlobalId := "z:carol" |}.

Definition members (discussion : SimpleDiscussion) : list ContactAccount :=
  if String.eqb (driverName discussion) "x" then [alice]
  else if String.eqb (driverName discussion) "y" then [bob]
  else [].

(** The messages of a discussion that the options ask for. *)
Definition fetch (discussion : SimpleDiscussion) (opts : GetMessagesOptions)
    : list SimpleMessage :=
  let recent :=
    List.filter
      (fun m => match afterDate opts with
                | Some t => t <=? creationDate m
                | None => true
                end) (stream discussion) in
  let wanted :=
    match messageFilter opts with
    | Some keep => List.filter keep recent
    | None => recent
    end in
  take (Z.to_nat (maxMessages opts)) wanted.

(** The driver "z" is unreachable: sending on it fails.  [getMessages]
    reads its options during the call. *)
#[export] Instance ops : SimpleDiscussionOps := {|
  sd_getMessages discussion opts := Ok (fetch discussion (atCall opts));
  sd_getParticipants discussion _ := Ok (members discussion);
  sd_sendMessage discussion newMessage :=
    if String.eqb (driverName discussion) "z" then Err (External "unreachable")
    else Ok {| messageRef := 100; body := newBody newMessage; creationDate := 900000 |};
  sd_addParticipant _ _ := Ok tt;
  sd_localHasContact discussion contact :=
    existsb (fun c => String.eqb (contactGlobalId c) (contactGlobalId contact))
            (members discussion);
  sd_merge discussion other :=
    {| discussionGlobalId :=
         String.append (discussionGlobalId discussion)
                       (String.append "+" (discussionGlobalId other));
       driverName := driverName discussion;
       localAccountId := localAccountId discussion |};
  sd_isTheSameAs discussion other :=
    String.eqb (discussionGlobalId discussion) (discussionGlobalId other)
|}.


Definition accountX : UserAccount := {| accountRef := 1; accountGlobalId := "x:me" |}.
Definition accountY : UserAccount := {| accountRef := 2; accountGlobalId := "y:me" |}.

#[export] Instance accountOps : UserAccountOps := {|
  ua_getContactAccounts account :=
    if String.eqb (accountGlobalId account) "x:me" then Ok [alice]
    else if String.eqb (accountGlobalId account) "y:me" then Ok [bob]
    else Ok [];
  ua_hasContact account contact :=
    (String.eqb (accountGlobalId account) "x:me"
       && String.eqb (contactGlobalId contact) "x:alice")
    || (String.eqb (accountGlobalId account) "y:me"
          && String.eqb (contactGlobalId contact) "y:bob");
  ua_getOrCreateDiscussion account _ :=
    if String.eqb (accountGlobalId account) "x:me" then Ok discussionX
    else Ok discussionY;
  ua_createDiscussion account _ :=
    if String.eqb (accountGlobalId account) "x:me" then Ok discussionX2
    else Ok discussionY
|}.

Definition user : User :=
  {| globalUsername := "u"; accounts := [accountX; accountY] |}.

Definition entry (discussion : SimpleDiscussion) (addedAt : Z)
    (removedAt : option Z) : Subdiscussion :=
  {| subdiscussion := discussion; added := addedAt; removed := removedAt |}.

Definition meta (subs : list Subdiscussion) : MetaDiscussion :=
  {| owner := user; metaId := "m1"; subDiscussions := subs; listening := false |}.

(** Three discussions; the one in the middle is on the unreachable driver. *)
Definition withUnreachable : MetaDiscussion :=
  meta [entry discussionX 0 None; entry discussionZ 0 None; entry discussionY 0 None].

(** The copy of [hello] as this backend sends it. *)
Definition relayedHello : SimpleMessage :=
  {| messageRef := 100; body := ">>hi"; creationDate := 900000 |}.

(** Two discussions, both joined before any of their messages. *)
Definition twoProtocols : MetaDiscussion :=
  meta [entry discussionX (-10) None; entry discussionY (-10) None].


(** The second discussion joined at time 0 and left at time 700000. *)
Definition joinedAndLeft : MetaDiscussion :=
  meta [entry discussionX (-10) None; entry discussionY 0 (Some 700000)].

End Memory.

(** ** The other operations of MetaDiscussion *)

(** The callback of the [reduce] of [getCreationDate], on dates that may be
    [null]. *)
Definition earlierDate (accumulator date : option Z) : option Z :=
  match accumulator with
  | None => date
  | Some acc =>
    match date with
    | None => accumulator
    | Some d => if d <? acc then Some d else Some acc
    end
  end.

(** [getCreationDate()]: the [reduce] starts from [null]. *)
Definition getCreationDate (md : MetaDiscussion) : option Z :=
  fold_left earlierDate
            (map (fun subdiscussion => Some (added subdiscussion))
                 (getDatedSubdiscussions md))
            None.

(** The operations of [SimpleDiscussion] used by [listen] and
    [removeParticipants]. *)
Class SimpleDiscussionEvents := {
  sd_listen : SimpleDiscussion -> Result unit;
  sd_removeParticipants : SimpleDiscussion -> ContactAccount -> Result unit
}.

Definition withListening (md : MetaDiscussion) : MetaDiscussion :=
  {| owner := owner md; metaId := metaId md; subDiscussions := subDiscussions md;
     listening := true |}.

(** [for (let discuss of memberedSubdiscussions)] of [removeParticipants]:
    the first sub-discussion whose member ids hold [contactID]. *)
Fixpoint firstListing (contactID : AccountGlobalId)
    (membered : list (SimpleDiscussion * list AccountGlobalId))
    : option SimpleDiscussion :=
  match membered with
  | [] => None
  | (subdiscuss, membersIDs) :: rest =>
    if indexOfFound membersIDs contactID then Some subdiscuss
    else firstListing contactID rest
  end.

Section MoreOfMetaDiscussion.
Context `{SimpleDiscussionOps} `{SimpleDiscussionEvents} `{UserAccountOps}.

(** [sendMessage(newMessage)] *)
Definition sendMessage (md : MetaDiscussion) (newMessage : NewMessage)
    : Result MetaMessage :=
  messages <- mapM (fun discussion => sd_sendMessage discussion newMessage)
                   (getSubDiscussions md) ;;
  Ok (newMetaMessage messages).

(** [attachEventsTo(discussion)]: the discussion whose "message" event gets
    the relay handler, and the outcome of its [listen()]. *)
Definition attachEventsTo (discussion : SimpleDiscussion)
    : list SimpleDiscussion * Result unit :=
  ([discussion], sd_listen discussion).

(** [listen()]: the meta-discussion after the call, the discussions the
    relay was subscribed to, and the outcome. *)
Definition listen (md : MetaDiscussion)
    : MetaDiscussion * (list SimpleDiscussion * Result unit) :=
  if listening md then (md, ([], Ok tt))
  else
    let attached := map attachEventsTo (getSubDiscussions md) in
    (withListening md,
     (concat (map fst attached), (_ <- mapM snd attached ;; Ok tt))).

(** [addParticipant] with the subscription it makes when the
    meta-discussion is listening: the discussions subscribed to, and the
    outcome. *)
Definition addParticipantRelay (md : MetaDiscussion) (contactAccount : ContactAccount)
    (now : Z) : list SimpleDiscussion * Result MetaDiscussion :=
  let discussions :=
    List.filter (fun discu => sd_localHasContact discu contactAccount)
                (getSubDiscussions md) in
  match discussions with
  | first :: _ => ([], (_ <- sd_addParticipant first contactAccount ;; Ok md))
  | [] =>
    let compatibleUserAccounts :=
      List.filter (fun userAccount => ua_hasContact userAccount contactAccount)
                  (getAccounts (owner md)) in
    match compatibleUserAccounts with
    | [] => ([], Err UnknownContact)
    | account :: _ =>
      match ua_createDiscussion account [contactGlobalId contactAccount] with
      | Err e => ([], Err e)
      | Ok newSubdiscuss =>
        let registered :=
          withSubDiscussions md
            (subDiscussions md ++
             [{| subdiscussion := newSubdiscuss; added := now; removed := None |}]) in
        if listening md then
          let '(subscribed, attached) := attachEventsTo newSubdiscuss in
          (subscribed, (_ <- attached ;; Ok registered))
        else ([], Ok registered)
      end
    end
  end.

(** [removeParticipants(contactAccount)]: the sub-discussions whose own
    [removeParticipants] is called, and the outcome. *)
Definition removeParticipants (md : MetaDiscussion) (contactAccount : ContactAccount)
    : list SimpleDiscussion * Result unit :=
  let contactID := contactGlobalId contactAccount in
  match mapM (fun subdiscuss =>
                parts <- sd_getParticipants subdiscuss None ;;
                Ok (subdiscuss, map contactGlobalId parts))
             (getSubDiscussions md) with
  | Err e => ([], Err e)
  | Ok memberedSubdiscussions =>
    match firstListing contactID memberedSubdiscussions with
    | Some subdiscuss => ([subdiscuss], sd_removeParticipants subdiscuss contactAccount)
    | None => ([], Ok tt)
    end
  end.

End MoreOfMetaDiscussion.

(** ** The other operations of User *)

(** The [Incident]s raised by the account and discussion management of
    [User], and [Collaborator] for a rejection that comes from an account. *)
Inductive UserIncident :=
| Todo                      (* "todo" *)
| MalformedDiscussion       (* "Malformed Discussion" *)
| AlreadyExistingAccount    (* "Already existing account" *)
| UnknownAccount            (* "Unknown account" *)
| BadOwner                  (* "Bad owner" *)
| Collaborator (e : Incident).

Inductive UserResult (A : Type) :=
| Done (value : A)
| Failed (incident : UserIncident).
Arguments Done {A} value.
Arguments Failed {A} incident.

Definition fromCollaborator {A} (r : Result A) : UserResult A :=
  match r with
  | Ok v => Done v
  | Err e => Failed (Collaborator e)
  end.

(** [ids.indexOf(id)]: the first position of [id], or -1. *)
Fixpoint indexOf (ids : list AccountGlobalId) (id : AccountGlobalId) : Z :=
  match ids with
  | [] => -1
  | first :: rest =>
    if String.eqb first id then 0
    else let position := indexOf rest id in
         if position =? -1 then -1 else position + 1
  end.

(** [getAccountsIDs()] *)
Definition getAccountsIDs (u : User) : list AccountGlobalId :=
  map accountGlobalId (getAccounts u).

Definition withAccounts (u : User) (owned : list UserAccount) : User :=
  {| globalUsername := globalUsername u; accounts := owned |}.

(** [addAccount(account)]: the user after the call and the outcome. *)
Definition addAccount (u : User) (account : UserAccount) : User * UserResult unit :=
  let ids := getAccountsIDs u in
  let id := accountGlobalId account in
  if indexOf ids id =? -1 then (withAccounts u (accounts u ++ [account]), Done tt)
  else (u, Failed AlreadyExistingAccount).

(** [removeAccount(account)]; [splice(ids.indexOf(id), 1)] is a [delete]. *)
Definition removeAccount (u : User) (account : UserAccount) : User * UserResult unit :=
  let ids := getAccountsIDs u in
  let id := accountGlobalId account in
  if indexOf ids id =? -1 then (u, Failed UnknownAccount)
  else (withAccounts u (delete (Z.to_nat (indexOf ids id)) (accounts u)), Done tt).

Record GetDiscussionsOptions := {
  discussionFilter : option (Discussion -> bool);
  maxDiscussions : option Z
}.

(** The callback of the [filter] of [getAllSimpleDiscussions] run over the
    discussions of one account, with its [counter]. *)
Fixpoint selectDiscussions (options : option GetDiscussionsOptions) (counter : Z)
    (discussions : list SimpleDiscussion) : list SimpleDiscussion :=
  match discussions with
  | [] => []
  | discuss :: rest =>
    match options with
    | None => discuss :: selectDiscussions options counter rest
    | Some o =>
      let boolReturn :=
        match discussionFilter o with
        | Some keep => keep (Simple discuss)
        | None => true
        end in
      match maxDiscussions o with
      | Some max =>
        if truthy max && boolReturn then
          let counter' := counter + 1 in
          if counter' >? max then selectDiscussions options counter' rest
          else discuss :: selectDiscussions options counter' rest
        else if boolReturn then discuss :: selectDiscussions options counter rest
        else selectDiscussions options counter rest
      | None =>
        if boolReturn then discuss :: selectDiscussions options counter rest
        else selectDiscussions options counter rest
      end
    end
  end.

(** The operations of an account used by the listing and the leaving of
    discussions; [ua_leaveDiscussion account id] is [getOrCreateApi()] on
    the account of that global id followed by [api.leaveDiscussion(id)]. *)
Class UserAccountDiscussions := {
  ua_getDiscussions : UserAccount -> Result (list SimpleDiscussion);
  ua_leaveDiscussion : AccountGlobalId -> AccountGlobalId -> Result unit
}.

(** The first failure of a list of outcomes, as [Bluebird.all] reports it. *)
Fixpoint allDone (outcomes : list (UserResult unit)) : UserResult unit :=
  match outcomes with
  | [] => Done tt
  | Done _ :: rest => allDone rest
  | Failed e :: _ => Failed e
  end.

Section MoreOfUser.
Context `{UserAccountDiscussions}.

(** [getAllSimpleDiscussions(options)] *)
Definition getAllSimpleDiscussions (u : User) (options : option GetDiscussionsOptions)
    : UserResult (list SimpleDiscussion) :=
  match mapM (fun account =>
                discuss <- ua_getDiscussions account ;;
                Ok (selectDiscussions options 0 discuss))
             (accounts u) with
  | Err e => Failed (Collaborator e)
  | Ok selected =>
    Done (fold_left
            (fun discussions discuss =>
               let _ := lodash_concat discussions discuss in discussions)
            selected [])
  end.

(** [getAllMetaDiscussions(options)] *)
Definition getAllMetaDiscussions (u : User) (options : option GetDiscussionsOptions)
    : UserResult (list MetaDiscussion) :=
  Failed Todo.

(** [getAllDiscussions(options)] *)
Definition getAllDiscussions (u : User) (options : option GetDiscussionsOptions)
    : UserResult (list Discussion) :=
  match getAllSimpleDiscussions u options with
  | Failed e => Failed e
  | Done simpleDiscussions =>
    let discussions := map Simple simpleDiscussions in
    match getAllMetaDiscussions u options with
    | Failed e => Failed e
    | Done metaDiscussions =>
      let _ := lodash_concat discussions (map Meta metaDiscussions) in
      Done discussions
    end
  end.

(** [leaveSimpleDiscussion(discussion)]: the calls
    [(account, argument of api.leaveDiscussion)] it makes, and the outcome. *)
Definition leaveSimpleDiscussion (u : User) (discussion : SimpleDiscussion)
    : list (AccountGlobalId * AccountGlobalId) * UserResult unit :=
  let discussAccountID := localAccountId discussion in
  if negb (indexOf (getAccountsIDs u) discussAccountID =? -1) then
    ([(discussAccountID, discussAccountID)],
     fromCollaborator (ua_leaveDiscussion discussAccountID discussAccountID))
  else ([], Failed BadOwner).

(** [leaveMetaDiscussion(discussion)]: [_.map] starts the leaving of every
    sub-discussion, and [Bluebird.all] waits for them. *)
Definition leaveMetaDiscussion (u : User) (discussion : MetaDiscussion)
    : list (AccountGlobalId * AccountGlobalId) * UserResult unit :=
  let each := map (leaveSimpleDiscussion u) (getSubDiscussions discussion) in
  (concat (map fst each), allDone (map snd each)).

(** [leaveDiscussion(discussion)]; a discussion is one of the two classes,
    so the "Malformed Discussion" branch has no input. *)
Definition leaveDiscussion (u : User) (discussion : Discussion)
    : list (AccountGlobalId * AccountGlobalId) * UserResult unit :=
  match discussion with
  | Simple simple => leaveSimpleDiscussion u simple
  | Meta meta => leaveMetaDiscussion u meta
  end.

End MoreOfUser.

(** The simple discussions a discussion is made of. *)
Definition simpleDiscussionsOf (discussion : Discussion) : list SimpleDiscussion :=
  match discussion with
  | Simple simple => [simple]
  | Meta meta => getSubDiscussions meta
  end.


(** The in-memory backend, for the operations above. *)
Module MemoryMore.

#[export] Instance events : SimpleDiscussionEvents := {|
  sd_listen discussion :=
    if String.eqb (driverName discussion) "z" then Err (External "unreachable")
    else Ok tt;
  sd_removeParticipants _ _ := Ok tt
|}.

#[export] Instance discussions : UserAccountDiscussions := {|
  ua_getDiscussions account :=
    if String.eqb (accountGlobalId account) "x:me"
    then Ok [Memory.discussionX; Memory.discussionX2]
    else if String.eqb (accountGlobalId account) "y:me" then Ok [Memory.discussionY]
    else Ok [];
  ua_leaveDiscussion _ _ := Ok tt
|}.

Definition accountZ : UserAccount := {| accountRef := 3; accountGlobalId := "z:me" |}.

End MemoryMore.

(** * Properties *)

(** ** The outcome monad *)

Lemma bind_Ok {A B} (r : Result A) (k : A -> Result B) (b : B) :
  bind r k = Ok b -> exists a, r = Ok a /\ k a = Ok b.
Proof. destruct r as [a|e]; simpl; [eauto | discriminate]. Qed.

Lemma mapM_Ok_Forall2 {A B} (f : A -> Result B) (l : list A) (ys : list B) :
  mapM f l = Ok ys -> Forall2 (fun x y => f x = Ok y) l ys.
Proof.
  revert ys. induction l as [|x xs IH]; simpl; intros ys Hm.
  - injection Hm as <-. constructor.
  - apply bind_Ok in Hm as (y & Hy & Hm).
    apply bind_Ok in Hm as (ys' & Hys & Hm).
    injection Hm as <-. constructor; auto.
Qed.

Lemma mapM_all_Ok {A B} (f : A -> Result B) (l : list A) :
  (forall x, In x l -> exists y, f x = Ok y) -> exists ys, mapM f l = Ok ys.
Proof.
  induction l as [|x xs IH]; simpl; intros Hall; [eauto|].
  destruct (Hall x) as [y Hy]; [auto|]. rewrite Hy. simpl.
  destruct IH as [ys Hys]; [auto|]. rewrite Hys. simpl. eauto.
Qed.

Lemma mapM_Err {A B} (f : A -> Result B) (l : list A) (x : A) (e : Incident) :
  In x l -> f x = Err e -> exists e', mapM f l = Err e'.
Proof.
  induction l as [|y ys IH]; simpl; [tauto|].
  intros [->|Hin] Hf.
  - rewrite Hf. simpl. eauto.
  - destruct (f y); simpl; [|eauto].
    destruct (IH Hin Hf) as [e' ->]. simpl. eauto.
Qed.

(** ** The stable sort *)

Lemma insertByDate_perm x l : Permutation (insertByDate x l) (x :: l).
Proof.
  induction l as [|y l IH]; simpl; [reflexivity|].
  destruct (date x <=? date y); [reflexivity|].
  rewrite IH. apply perm_swap.
Qed.

Lemma sortByDate_perm l : Permutation (sortByDate l) l.
Proof.
  induction l as [|x l IH]; simpl; [reflexivity|].
  rewrite insertByDate_perm. by constructor.
Qed.

Lemma insertByDate_sorted x l :
  StronglySorted byDate l -> StronglySorted byDate (insertByDate x l).
Proof.
  induction l as [|y l IH]; simpl; intros Hs.
  - repeat constructor.
  - apply StronglySorted_inv in Hs as [Hs Hall].
    destruct (Z.leb_spec (date x) (date y)) as [Hle|Hgt].
    + constructor; [by constructor|].
      constructor; [exact Hle|].
      eapply Forall_impl; [exact Hall|].
      unfold byDate. intros; simpl in *; lia.
    + constructor; [auto|].
      rewrite insertByDate_perm. constructor; [|exact Hall].
      unfold byDate. lia.
Qed.

Lemma sortByDate_sorted l : StronglySorted byDate (sortByDate l).
Proof.
  induction l; simpl; [constructor | by apply insertByDate_sorted].
Qed.

(** ** The two loops of the duplicate sweep *)

Lemma mergeMeta_nil meta : {| constituents := constituents meta ++ [] |} = meta.
Proof. destruct meta as [ms]. simpl. by rewrite app_nil_r. Qed.

(** With [length datedMsgs - j] iterations allowed, the inner loop leaves
    the first [j] cells alone and does on the rest what [scan] says. *)
Lemma scanFrom_scan fuel message : forall datedMsgs j meta,
  (length datedMsgs - j <= fuel)%nat ->
  scanFrom fuel message datedMsgs j meta =
    (take j datedMsgs ++ snd (scan message (drop j datedMsgs)),
     {| constituents :=
          constituents meta ++ map msg (fst (scan message (drop j datedMsgs))) |}).
Proof.
  induction fuel as [|fuel IH]; intros l j meta Hfuel.
  - assert (Hj : (length l <= j)%nat) by lia.
    simpl. rewrite (drop_ge l j Hj), (take_ge l j Hj). simpl.
    by rewrite app_nil_r, mergeMeta_nil.
  - simpl. destruct (l !! j) as [c|] eqn:Hc.
    + pose proof (lookup_lt_Some _ _ _ Hc) as Hlt.
      rewrite (drop_S _ _ _ Hc). simpl.
      destruct (date message >? date c + mergeWindow).
      * cbn [fst snd map].
        by rewrite (take_drop_middle _ _ _ Hc), mergeMeta_nil.
      * destruct (scan message (drop (S j) l)) as [folded kept] eqn:Hscan.
        assert (Hlen : length (take j l) = j) by (rewrite length_take; lia).
        destruct (hasTheSameBodyAs (msg message) (msg c)).
        -- rewrite IH by (rewrite length_delete by eauto; lia).
           rewrite delete_take_drop.
           rewrite (take_app_length' _ _ j) by done.
           rewrite (drop_app_length' _ _ j) by done.
           rewrite Hscan. cbn [fst snd map mergeMeta newMetaMessage constituents].
           by rewrite <- app_assoc.
        -- rewrite IH by lia.
           rewrite Hscan. cbn [fst snd map].
           rewrite (take_S_r _ _ _ Hc). by rewrite <- app_assoc.
    + apply lookup_ge_None in Hc.
      rewrite (drop_ge l j Hc), (take_ge l j Hc). simpl.
      by rewrite app_nil_r, mergeMeta_nil.
Qed.

(** The outer loop appends to [metaMessages] the groups of [sweep] on the
    cells from [i] on. *)
Lemma sweepFrom_sweep fuel : forall datedMsgs i metaMessages,
  sweepFrom fuel datedMsgs i metaMessages =
    metaMessages ++ sweep fuel (drop i datedMsgs).
Proof.
  induction fuel as [|fuel IH]; intros l i metas; simpl.
  - by rewrite app_nil_r.
  - destruct (l !! i) as [m|] eqn:Hm.
    + pose proof (lookup_lt_Some _ _ _ Hm) as Hlt.
      rewrite scanFrom_scan by lia.
      rewrite (drop_S _ _ _ Hm).
      destruct (scan m (drop (S i) l)) as [folded kept] eqn:Hscan. simpl.
      rewrite IH.
      rewrite (drop_app_length' _ _ (S i)) by (rewrite length_take; lia).
      by rewrite <- app_assoc.
    + apply lookup_ge_None in Hm. rewrite (drop_ge l i Hm).
      by rewrite app_nil_r.
Qed.

Lemma deduplicate_sweep datedMsgs :
  deduplicate datedMsgs = sweep (length datedMsgs) datedMsgs.
Proof. unfold deduplicate. by rewrite sweepFrom_sweep. Qed.

Lemma scan_perm message cands :
  Permutation (fst (scan message cands) ++ snd (scan message cands)) cands.
Proof.
  induction cands as [|c cs IH]; simpl; [reflexivity|].
  destruct (date message >? date c + mergeWindow); [reflexivity|].
  destruct (scan message cs) as [folded kept]. simpl in IH.
  destruct (hasTheSameBodyAs (msg message) (msg c)); simpl.
  - by constructor.
  - rewrite <- Permutation_middle. by constructor.
Qed.

Lemma scan_kept_length message cands :
  (length (snd (scan message cands)) <= length cands)%nat.
Proof.
  pose proof (Permutation_length (scan_perm message cands)) as Hlen.
  rewrite length_app in Hlen. lia.
Qed.

(** Every message of the array is in the groups of the sweep, as many
    times as in the array. *)
Lemma sweep_perm fuel : forall l,
  (length l <= fuel)%nat ->
  Permutation (allConstituents (sweep fuel l)) (map msg l).
Proof.
  unfold allConstituents.
  induction fuel as [|fuel IH]; intros [|m rest] Hfuel; simpl in *;
    try reflexivity; try lia.
  pose proof (scan_perm m rest) as Hperm.
  pose proof (scan_kept_length m rest) as Hlen.
  destruct (scan m rest) as [folded kept]. simpl in *.
  constructor.
  rewrite IH by lia.
  rewrite <- map_app. by apply Permutation_map.
Qed.

Lemma sweep_nonempty fuel : forall l,
  Forall (fun g => constituents g <> []) (sweep fuel l).
Proof.
  induction fuel as [|fuel IH]; intros [|m rest]; simpl; try constructor.
  destruct (scan m rest) as [folded kept]. constructor; [done | apply IH].
Qed.

Lemma scan_folded_In message cands x :
  In x (fst (scan message cands)) -> In x cands.
Proof.
  intros Hin. eapply Permutation_in; [apply scan_perm|].
  apply in_or_app. by left.
Qed.

Lemma scan_kept_In message cands x :
  In x (snd (scan message cands)) -> In x cands.
Proof.
  intros Hin. eapply Permutation_in; [apply scan_perm|].
  apply in_or_app. by right.
Qed.

Lemma scan_kept_sorted message cands :
  StronglySorted byDate cands -> StronglySorted byDate (snd (scan message cands)).
Proof.
  induction cands as [|c cs IH]; simpl; intros Hs; [constructor|].
  destruct (date message >? date c + mergeWindow); [exact Hs|].
  apply StronglySorted_inv in Hs as [Hs Hall].
  specialize (IH Hs).
  pose proof (scan_kept_In message cs) as Hin.
  destruct (scan message cs) as [folded kept]. simpl in *.
  destruct (hasTheSameBodyAs (msg message) (msg c)); simpl; [exact IH|].
  constructor; [exact IH|].
  apply List.Forall_forall. intros x Hx.
  eapply List.Forall_forall in Hall; eauto.
Qed.

Lemma earliestDate_head m ms :
  Forall (fun x => creationDate m <= creationDate x) ms ->
  earliestDate (newMetaMessage (m :: ms)) = creationDate m.
Proof.
  unfold earliestDate. simpl.
  induction 1 as [|x xs Hx _ IH]; simpl; [reflexivity|].
  rewrite IH. lia.
Qed.

(** On an array sorted by date, the groups come out in the order of the
    creation time of their earliest member, which is the opening one. *)
Lemma sweep_sorted fuel : forall l lo,
  StronglySorted byDate l ->
  Forall wellDated l ->
  Forall (fun d => lo <= date d) l ->
  StronglySorted Z.le (map earliestDate (sweep fuel l)) /\
  Forall (fun g => lo <= earliestDate g) (sweep fuel l).
Proof.
  induction fuel as [|fuel IH]; intros [|m rest] lo Hs Hwd Hlo; simpl;
    try (split; constructor).
  apply StronglySorted_inv in Hs as [Hs Hall].
  apply Forall_cons_1 in Hwd as [Hm Hwd].
  apply Forall_cons_1 in Hlo as [Hlom Hlo].
  pose proof (scan_kept_sorted m rest Hs) as Hks.
  pose proof (scan_kept_In m rest) as Hkin.
  pose proof (scan_folded_In m rest) as Hfin.
  destruct (scan m rest) as [folded kept]. simpl in *.
  assert (Hhead : earliestDate (newMetaMessage (msg m :: map msg folded)) = date m).
  { rewrite earliestDate_head; [by rewrite Hm|].
    apply List.Forall_forall. intros x Hx.
    apply in_map_iff in Hx as (d & <- & Hd).
    apply Hfin in Hd.
    eapply List.Forall_forall in Hall; eauto.
    eapply List.Forall_forall in Hwd; eauto.
    unfold byDate, wellDated in *. lia. }
  destruct (IH kept (date m)) as [IHs IHlo].
  - exact Hks.
  - apply List.Forall_forall. intros x Hx.
    eapply List.Forall_forall in Hwd; eauto.
  - apply List.Forall_forall. intros x Hx.
    eapply List.Forall_forall in Hall; eauto.
  - rewrite Hhead. split.
    + constructor; [exact IHs|].
      apply List.Forall_forall. intros z Hz.
      apply in_map_iff in Hz as (g & <- & Hg).
      eapply List.Forall_forall in IHlo; eauto.
    + constructor; [lia|].
      eapply Forall_impl; [exact IHlo|]. simpl. intros; lia.
Qed.

(** Two groups at different positions of a list with no repeated message
    have no message in common. *)
Lemma groups_disjoint (out : list MetaMessage) : forall i j g1 g2 m,
  NoDup (allConstituents out) ->
  out !! i = Some g1 -> out !! j = Some g2 ->
  In m (constituents g1) -> In m (constituents g2) -> i = j.
Proof.
  unfold allConstituents.
  induction out as [|g out IH]; intros i j g1 g2 m Hnd Hi Hj H1 H2.
  - done.
  - simpl in Hnd. apply NoDup_app in Hnd as (_ & Hdisj & Hnd).
    assert (Hlater : forall k g', out !! k = Some g' ->
              In m (constituents g') -> In m (concat (map constituents out))).
    { intros k g' Hk Hin. apply in_concat. exists (constituents g').
      split; [|done]. apply in_map. apply list_elem_of_In.
      by eapply list_elem_of_lookup_2. }
    destruct i as [|i], j as [|j]; simpl in *.
    + done.
    + injection Hi as <-. exfalso.
      apply (Hdisj m); apply list_elem_of_In; eauto.
    + injection Hj as <-. exfalso.
      apply (Hdisj m); apply list_elem_of_In; eauto.
    + f_equal. eauto.
Qed.

(** ** What the pool holds *)

Section PoolFacts.
Context `{ops : SimpleDiscussionOps}.

Lemma entryMessages_inv opts0 smallFilter registry entry ds :
  entryMessages opts0 smallFilter registry entry = Ok ds ->
  exists fetched,
    sd_getMessages (subdiscussion entry)
                   (sharedOptions opts0 smallFilter registry entry) = Ok fetched /\
    forall d, In d ds ->
      wellDated d /\ In (msg d) fetched /\
      (forall r, removed entry = Some r -> date d < r).
Proof.
  unfold entryMessages. intros Hok.
  apply bind_Ok in Hok as (fetched & Hfetch & Hok).
  exists fetched. split; [exact Hfetch|].
  injection Hok as <-. intros d Hd.
  apply in_map_iff in Hd as (dr & <- & Hdr).
  apply filter_In in Hdr as [Hdr Hkeep].
  apply in_map_iff in Hdr as (m & <- & Hm).
  unfold keepBeforeRemoval, wellDated in *. simpl in *.
  repeat split; [exact Hm|].
  intros r Hr. rewrite Hr in Hkeep. lia.
Qed.

Lemma perEntry_inv opts0 smallFilter registry entries perEntry :
  mapM (entryMessages opts0 smallFilter registry) entries = Ok perEntry ->
  forall d, In d (concat perEntry) ->
    wellDated d /\
    exists entry fetched,
      In entry entries /\
      sd_getMessages (subdiscussion entry)
                     (sharedOptions opts0 smallFilter registry entry) = Ok fetched /\
      In (msg d) fetched /\
      (forall r, removed entry = Some r -> date d < r).
Proof.
  intros Hmap. apply mapM_Ok_Forall2 in Hmap.
  induction Hmap as [|entry ds entries dss Hentry _ IH]; intros d Hd; [done|].
  simpl in Hd. apply in_app_or in Hd as [Hd|Hd].
  - apply entryMessages_inv in Hentry as (fetched & Hfetch & Hall).
    destruct (Hall d Hd) as (Hwd & Hin & Hrem).
    split; [exact Hwd|]. exists entry, fetched. repeat split; auto. by left.
  - destruct (IH d Hd) as (Hwd & entry' & fetched & Hin & Hrest).
    split; [exact Hwd|]. exists entry', fetched. split; [by right|exact Hrest].
Qed.

Lemma survivingMessages_inv md options pool :
  survivingMessages md options = Ok pool ->
  forall d, In d pool ->
    wellDated d /\
    exists entry opts fetched,
      In entry (subDiscussions md) /\
      opts = sharedOptions
               (match options with Some o => o | None => defaultOptions end)
               (match options with Some o => messageFilter o | None => None end)
               (subDiscussions md) entry /\
      sd_getMessages (subdiscussion entry) opts = Ok fetched /\
      In (msg d) fetched /\
      (forall r, removed entry = Some r -> date d < r).
Proof.
  unfold survivingMessages, getDatedSubdiscussions. intros Hok.
  apply bind_Ok in Hok as (perEntry & Hmap & Hok). injection Hok as <-.
  intros d Hd.
  destruct (perEntry_inv _ _ _ _ _ Hmap d Hd)
    as (Hwd & entry & fetched & Hin & Hfetch & Hrest).
  split; [exact Hwd|]. eexists entry, _, fetched.
  split; [exact Hin|]. split; [reflexivity|]. split; [exact Hfetch | exact Hrest].
Qed.

End PoolFacts.

(** ** getMessages: partition and order *)

Lemma getMessages_sweep_perm (pool : list DatedMessage) :
  Permutation (allConstituents (deduplicate (sortByDate pool))) (map msg pool) /\
  deduplicate (sortByDate pool) = sweep (length (sortByDate pool)) (sortByDate pool).
Proof.
  rewrite deduplicate_sweep. split; [|reflexivity].
  rewrite sweep_perm by lia. apply Permutation_map, sortByDate_perm.
Qed.

(** C2. When the messages of every entry have been fetched, [getMessages]
    returns Meta-Messages that partition the surviving messages: together
    they hold exactly the messages of the pool (each as many times as it was
    fetched), no message object is in two of them, none is empty, and they
    are in ascending order of the creation time of their earliest member. *)
Theorem getMessages_partition_sorted `{ops : SimpleDiscussionOps}
    (md : MetaDiscussion) (options : option GetMessagesOptions)
    (pool : list DatedMessage) :
  survivingMessages md options = Ok pool ->
  exists out,
    getMessages md options = Ok out /\
    Permutation (allConstituents out) (map msg pool) /\
    (NoDup (map msg pool) ->
     forall i j g1 g2 m,
       out !! i = Some g1 -> out !! j = Some g2 ->
       In m (constituents g1) -> In m (constituents g2) -> i = j) /\
    Forall (fun g => constituents g <> []) out /\
    StronglySorted Z.le (map earliestDate out).
Proof.
  intros Hpool. unfold getMessages. rewrite Hpool. simpl.
  eexists. split; [reflexivity|].
  rewrite deduplicate_sweep.
  assert (Hperm : Permutation
            (allConstituents (sweep (length (sortByDate pool)) (sortByDate pool)))
            (map msg pool)).
  { rewrite sweep_perm by lia. apply Permutation_map, sortByDate_perm. }
  split; [exact Hperm|]. split; [|split].
  - intros Hnd i j g1 g2 m. apply groups_disjoint.
    by rewrite Hperm.
  - apply sweep_nonempty.
  - pose proof (sortByDate_sorted pool) as Hs.
    assert (Hwd : Forall wellDated (sortByDate pool)).
    { apply List.Forall_forall. intros d Hd.
      apply (Permutation_in _ (sortByDate_perm pool)) in Hd.
      by destruct (survivingMessages_inv md options pool Hpool d Hd). }
    destruct (sortByDate pool) as [|m rest] eqn:Hsorted; [constructor|].
    apply (sweep_sorted _ (m :: rest) (date m)); auto.
    apply StronglySorted_inv in Hs as [_ Hall].
    constructor; [lia | exact Hall].
Qed.

Lemma getMessages_partition_sorted_witness :
  @survivingMessages Memory.ops Memory.twoProtocols None =
    Ok (map (fun m => {| msg := m; date := creationDate m |})
            [Memory.hello; Memory.question;
             Memory.early; Memory.helloAgain; Memory.late]) /\
  exists out, @getMessages Memory.ops Memory.twoProtocols None = Ok out /\
    Permutation (allConstituents out)
      [Memory.hello; Memory.question; Memory.early; Memory.helloAgain; Memory.late].
Proof.
  split; [reflexivity|].
  destruct (@getMessages_partition_sorted Memory.ops Memory.twoProtocols None _ eq_refl)
    as (out & Hout & Hperm & _).
  exists out. split; [exact Hout | exact Hperm].
Defined.

(** ** getMessages: the membership window *)

Lemma getMessages_sources `{ops : SimpleDiscussionOps}
    (md : MetaDiscussion) (options : option GetMessagesOptions)
    (out : list MetaMessage) :
  getMessages md options = Ok out ->
  forall g m, In g out -> In m (constituents g) ->
    exists entry opts fetched,
      In entry (subDiscussions md) /\
      opts = sharedOptions
               (match options with Some o => o | None => defaultOptions end)
               (match options with Some o => messageFilter o | None => None end)
               (subDiscussions md) entry /\
      sd_getMessages (subdiscussion entry) opts = Ok fetched /\
      In m fetched /\
      (forall r, removed entry = Some r -> creationDate m < r).
Proof.
  intros Hout g m Hg Hm.
  unfold getMessages in Hout.
  apply bind_Ok in Hout as (pool & Hpool & Hout). injection Hout as <-.
  destruct (getMessages_sweep_perm pool) as [Hperm _].
  assert (Hin : In m (map msg pool)).
  { eapply Permutation_in; [exact Hperm|].
    apply in_concat. exists (constituents g). split; [by apply in_map | done]. }
  apply in_map_iff in Hin as (d & <- & Hd).
  destruct (survivingMessages_inv md options pool Hpool d Hd)
    as (Hwd & entry & opts & fetched & Hentry & Hopts & Hfetch & Hin & Hrem).
  exists entry, opts, fetched. repeat split; auto.
  intros r Hr. rewrite <- Hwd. by apply Hrem.
Qed.

(** The upper bound of the window is kept by [getMessages] itself: every
    message of a Meta-Message it returns was fetched from a registry entry,
    and was created before the [removed] date of that entry when it has
    one. *)
Lemma getMessages_before_removal `{ops : SimpleDiscussionOps}
    (md : MetaDiscussion) (options : option GetMessagesOptions)
    (out : list MetaMessage) :
  getMessages md options = Ok out ->
  forall g m, In g out -> In m (constituents g) ->
    exists entry opts fetched,
      In entry (subDiscussions md) /\
      sd_getMessages (subdiscussion entry) opts = Ok fetched /\
      In m fetched /\
      (forall r, removed entry = Some r -> creationDate m < r).
Proof.
  intros Hout g m Hg Hm.
  destruct (getMessages_sources md options out Hout g m Hg Hm)
    as (entry & opts & fetched & Hentry & _ & Hfetch & Hin & Hrem).
  exists entry, opts, fetched. auto.
Qed.

(** The lower bound is left to the sub-discussions.  With sub-discussions
    that read [afterDate] during the call, every message returned lies in
    the window of the entry it was fetched from. *)
Lemma getMessages_within_membership `{ops : SimpleDiscussionOps}
    (md : MetaDiscussion) (options : option GetMessagesOptions)
    (out : list MetaMessage) :
  honoursAfterDate ops ->
  getMessages md options = Ok out ->
  forall g m, In g out -> In m (constituents g) ->
    exists entry opts fetched,
      In entry (subDiscussions md) /\
      afterDate (atCall opts) = Some (added entry) /\
      sd_getMessages (subdiscussion entry) opts = Ok fetched /\
      In m fetched /\
      added entry <= creationDate m /\
      (forall r, removed entry = Some r -> creationDate m < r).
Proof.
  intros Hcontract Hout g m Hg Hm.
  destruct (getMessages_sources md options out Hout g m Hg Hm)
    as (entry & opts & fetched & Hentry & -> & Hfetch & Hin & Hrem).
  eexists entry, _, fetched.
  split; [exact Hentry|]. split; [|split; [exact Hfetch|]].
  - reflexivity.
  - repeat split; auto. by eapply Hcontract; eauto.
Qed.

(** With sub-discussions that read [afterDate] after an asynchronous step,
    all of them read the [added] date of the last entry of the registry:
    that date, and not the date of its own entry, bounds every message
    returned. *)
Lemma getMessages_last_entry_bound `{ops : SimpleDiscussionOps}
    (md : MetaDiscussion) (options : option GetMessagesOptions)
    (out : list MetaMessage) (lastEntry : Subdiscussion) :
  honoursSettledAfterDate ops ->
  last (subDiscussions md) = Some lastEntry ->
  getMessages md options = Ok out ->
  forall g m, In g out -> In m (constituents g) ->
    added lastEntry <= creationDate m.
Proof.
  intros Hcontract Hlast Hout g m Hg Hm.
  destruct (getMessages_sources md options out Hout g m Hg Hm)
    as (entry & opts & fetched & Hentry & -> & Hfetch & Hin & Hrem).
  eapply Hcontract; eauto.
  simpl. unfold settledOptions. by rewrite Hlast.
Qed.

Lemma memory_honoursAfterDate : honoursAfterDate Memory.ops.
Proof.
  intros discussion opts fetched m t Hfetch Hm Hafter. simpl in Hfetch.
  injection Hfetch as <-. unfold Memory.fetch in Hm.
  apply list_elem_of_In, elem_of_take in Hm as (i & Hm & _).
  apply list_elem_of_lookup_2, list_elem_of_In in Hm.
  assert (Hrecent : In m (List.filter
            (fun m => match afterDate (atCall opts) with
                      | Some t => t <=? creationDate m
                      | None => true
                      end) (Memory.stream discussion))).
  { destruct (messageFilter (atCall opts)); [|exact Hm].
    by apply filter_In in Hm as [Hm _]. }
  apply filter_In in Hrecent as [_ Hle]. rewrite Hafter in Hle. lia.
Qed.

Lemma getMessages_within_membership_witness :
  honoursAfterDate Memory.ops /\
  @getMessages Memory.ops Memory.joinedAndLeft None =
    Ok [newMetaMessage [Memory.hello; Memory.helloAgain];
        newMetaMessage [Memory.question]] /\
  exists entry opts fetched,
    In entry (subDiscussions Memory.joinedAndLeft) /\
    afterDate (atCall opts) = Some (added entry) /\
    @sd_getMessages Memory.ops (subdiscussion entry) opts = Ok fetched /\
    In Memory.helloAgain fetched /\
    added entry <= creationDate Memory.helloAgain /\
    (forall r, removed entry = Some r -> creationDate Memory.helloAgain < r).
Proof.
  split; [exact memory_honoursAfterDate|]. split; [reflexivity|].
  apply (@getMessages_within_membership Memory.ops Memory.joinedAndLeft None _
           memory_honoursAfterDate eq_refl
           (newMetaMessage [Memory.hello; Memory.helloAgain]) Memory.helloAgain);
    simpl; auto.
Defined.


(** ** getMessages: the five-minute window *)

(** The array is sorted in ascending order, so the opening message is never
    later than a candidate that follows it: the test
    [message.date > candidate.date + 5 minutes] is false at every candidate
    and the scan goes to the end of the array. *)
Lemma scan_sorted message cands :
  Forall (byDate message) cands ->
  scan message cands =
    (List.filter (fun c => hasTheSameBodyAs (msg message) (msg c)) cands,
     List.filter (fun c => negb (hasTheSameBodyAs (msg message) (msg c))) cands).
Proof.
  induction 1 as [|c cs Hc _ IH]; simpl; [reflexivity|].
  unfold byDate, mergeWindow in *.
  destruct (Z.gtb_spec (date message) (date c + 5 * 1000 * 60)) as [Hgt|_]; [lia|].
  rewrite IH. by destruct (hasTheSameBodyAs (msg message) (msg c)).
Qed.

Lemma sweep_groups_by_body fuel : forall l a b,
  (length l <= fuel)%nat ->
  StronglySorted byDate l ->
  In a l -> In b l -> body (msg a) = body (msg b) ->
  exists g, In g (sweep fuel l) /\
    In (msg a) (constituents g) /\ In (msg b) (constituents g).
Proof.
  induction fuel as [|fuel IH]; intros [|m rest] a b Hfuel Hs Ha Hb Hbody;
    simpl in *; try done; try lia.
  apply StronglySorted_inv in Hs as [Hs Hall].
  pose proof (scan_kept_sorted m rest Hs) as Hks.
  pose proof (scan_kept_length m rest) as Hlen.
  rewrite (scan_sorted m rest Hall) in *. simpl in *.
  assert (Hcase : forall x, In x (m :: rest) ->
            (hasTheSameBodyAs (msg m) (msg x) = true /\
             In (msg x) (msg m :: map msg
               (List.filter (fun c => hasTheSameBodyAs (msg m) (msg c)) rest))) \/
            (hasTheSameBodyAs (msg m) (msg x) = false /\
             In x (List.filter
               (fun c => negb (hasTheSameBodyAs (msg m) (msg c))) rest))).
  { intros x [<-|Hx].
    - left. split; [apply String.eqb_refl | by left].
    - destruct (hasTheSameBodyAs (msg m) (msg x)) eqn:Hsame.
      + left. split; [done|]. right. apply in_map. by apply filter_In.
      + right. split; [done|]. apply filter_In. by rewrite Hsame. }
  destruct (Hcase a Ha) as [[Hsa Hina]|[Hsa Hina]],
           (Hcase b Hb) as [[Hsb Hinb]|[Hsb Hinb]].
  - eexists. split; [by left|]. by split.
  - unfold hasTheSameBodyAs in *. rewrite Hbody in Hsa. congruence.
  - unfold hasTheSameBodyAs in *. rewrite Hbody in Hsa. congruence.
  - destruct (IH (List.filter
                   (fun c => negb (hasTheSameBodyAs (msg m) (msg c))) rest) a b)
      as (g & Hg & Hga & Hgb); auto; [lia|].
    exists g. split; [by right | by split].
Qed.

(** Whatever the distance between their creation times, two messages of
    the pool with the same body are in one Meta-Message of the result. *)
Lemma getMessages_merges_equal_bodies `{ops : SimpleDiscussionOps}
    (md : MetaDiscussion) (options : option GetMessagesOptions)
    (pool : list DatedMessage) (out : list MetaMessage) (a b : DatedMessage) :
  survivingMessages md options = Ok pool ->
  getMessages md options = Ok out ->
  In a pool -> In b pool -> body (msg a) = body (msg b) ->
  exists g, In g out /\ In (msg a) (constituents g) /\ In (msg b) (constituents g).
Proof.
  intros Hpool Hout Ha Hb Hbody.
  unfold getMessages in Hout. rewrite Hpool in Hout. simpl in Hout.
  injection Hout as <-. rewrite deduplicate_sweep.
  apply sweep_groups_by_body; auto using sortByDate_sorted.
  - eapply Permutation_in; [symmetry; apply sortByDate_perm | exact Ha].
  - eapply Permutation_in; [symmetry; apply sortByDate_perm | exact Hb].
Qed.

(** C1, evaluated.  The two "hi" messages are ten minutes apart, twice the
    window, and [getMessages] returns them in one Meta-Message. *)
Theorem getMessages_beyond_window :
  hasTheSameBodyAs Memory.hello Memory.helloAgain = true /\
  creationDate Memory.helloAgain - creationDate Memory.hello = 2 * mergeWindow /\
  @getMessages Memory.ops Memory.twoProtocols None =
    Ok [newMetaMessage [Memory.early];
        newMetaMessage [Memory.hello; Memory.helloAgain];
        newMetaMessage [Memory.question];
        newMetaMessage [Memory.late]].
Proof. repeat split. Qed.

(** ** getParticipants *)

Lemma collectParticipants_part options st parts :
  fst (collectParticipants options st parts) = fst st.
Proof.
  destruct st as [part counter]. unfold collectParticipants.
  destruct (truthyMax options) as [max|]; [|reflexivity].
  destruct (counter + Z.of_nat (length parts) <? max); [reflexivity|].
  by destruct (negb (counter =? max)).
Qed.

Lemma collect_all_part options fetched : forall st,
  fst (fold_left (collectParticipants options) fetched st) = fst st.
Proof.
  induction fetched as [|parts fetched IH]; intros st; simpl; [reflexivity|].
  by rewrite IH, collectParticipants_part.
Qed.

(** C10. [getParticipants] never resolves to anything but the empty list,
    with or without [maxParticipants]: [_.concat] builds a new array and
    [part] stays as it was created.  It resolves as soon as the
    participants of every sub-discussion are obtained. *)
Theorem getParticipants_empty `{ops : SimpleDiscussionOps}
    (md : MetaDiscussion) (options : option GetParticipantsOptions) :
  (forall parts, getParticipants md options = Ok parts -> parts = []) /\
  ((forall discuss, In discuss (getSubDiscussions md) ->
      exists parts, sd_getParticipants discuss options = Ok parts) ->
   getParticipants md options = Ok []).
Proof.
  unfold getParticipants. split.
  - intros parts Hok. apply bind_Ok in Hok as (fetched & _ & Hok).
    injection Hok as <-. apply collect_all_part.
  - intros Hall.
    destruct (mapM_all_Ok (fun discuss => sd_getParticipants discuss options)
                (getSubDiscussions md) Hall) as [fetched ->].
    simpl. by rewrite collect_all_part.
Qed.

Lemma getParticipants_empty_witness :
  @sd_getParticipants Memory.ops Memory.discussionX
     (Some {| maxParticipants := Some 5 |}) = Ok [Memory.alice] /\
  @getParticipants Memory.ops Memory.twoProtocols
     (Some {| maxParticipants := Some 5 |}) = Ok [].
Proof.
  split; [reflexivity|].
  apply (proj2 (@getParticipants_empty Memory.ops Memory.twoProtocols
                  (Some {| maxParticipants := Some 5 |}))).
  intros discuss Hin. simpl. eauto.
Defined.

(** ** isHeterogeneous *)

Lemma differsFromFirst_spec first xs :
  differsFromFirst first xs = true <-> exists x, In x xs /\ x <> first.
Proof.
  induction xs as [|x xs IH]; simpl.
  - split; [done | by intros (? & [] & _)].
  - destruct (String.eqb_spec x first) as [->|Hne]; simpl.
    + rewrite IH. split.
      * intros (y & Hy & Hne). eauto.
      * intros (y & [<-|Hy] & Hne); [done | eauto].
    + split; [eauto | done].
Qed.

Lemma anyDiffers_spec xs :
  anyDiffers xs = true <-> exists a b, In a xs /\ In b xs /\ a <> b.
Proof.
  destruct xs as [|first xs]; unfold anyDiffers.
  - split; [done | by intros (? & ? & [] & _)].
  - rewrite differsFromFirst_spec. split.
    + intros (x & Hx & Hne). exists x, first. repeat split; auto. by left.
    + intros (a & b & Ha & Hb & Hab).
      destruct (String.eqb_spec a first) as [->|Hne]; [|eauto].
      exists b. split; [done | congruence].
Qed.

Lemma anyDiffers_fields (f : SimpleDiscussion -> string) (l : list SimpleDiscussion) :
  anyDiffers (map f l) = true <-> exists a b, In a l /\ In b l /\ f a <> f b.
Proof.
  rewrite anyDiffers_spec. split.
  - intros (x & y & Hx & Hy & Hne).
    apply in_map_iff in Hx as (a & <- & Ha).
    apply in_map_iff in Hy as (b & <- & Hb). eauto.
  - intros (a & b & Ha & Hb & Hne).
    exists (f a), (f b). auto using in_map.
Qed.

(** C7, the claim at a registry with one active entry and one removed
    entry of another driver: a single sub-discussion is active, and
    [isHeterogeneous] answers true. *)
Lemma isHeterogeneous_counts_removed :
  let md := Memory.meta [Memory.entry Memory.discussionX 0 None;
                         Memory.entry Memory.discussionY 0 (Some 5)] in
  activeSubDiscussions md = [Memory.discussionX] /\
  isHeterogeneous md = true /\
  ~ (forall md', (length (activeSubDiscussions md') <= 1)%nat ->
                 isHeterogeneous md' = false).
Proof.
  repeat split. intros Hclaim.
  specialize (Hclaim (Memory.meta [Memory.entry Memory.discussionX 0 None;
                                   Memory.entry Memory.discussionY 0 (Some 5)])).
  discriminate Hclaim. simpl. lia.
Qed.

(** C7, amended.  [isHeterogeneous] looks at every registry entry, removed
    or not: it is false when the registry has no entry or one entry, and
    true exactly when two entries differ in driver name or two entries
    differ in local-account id. *)
Theorem isHeterogeneous_all_entries (md : MetaDiscussion) :
  ((length (subDiscussions md) <= 1)%nat -> isHeterogeneous md = false) /\
  (isHeterogeneous md = true <->
   exists a b, In a (getSubDiscussions md) /\ In b (getSubDiscussions md) /\
               differ a b).
Proof.
  assert (Hiff : isHeterogeneous md = true <->
    exists a b, In a (getSubDiscussions md) /\ In b (getSubDiscussions md) /\
                differ a b).
  { unfold isHeterogeneous, differ.
    destruct (Nat.eqb_spec (length (subDiscussions md)) 0) as [Hlen|_].
    - unfold getSubDiscussions.
      destruct (subDiscussions md); [|done].
      split; [done | by intros (? & ? & [] & _)].
    - pose proof (anyDiffers_fields driverName (getSubDiscussions md)) as Hp.
      pose proof (anyDiffers_fields localAccountId (getSubDiscussions md)) as Hi.
      destruct (anyDiffers (map driverName (getSubDiscussions md))); simpl.
      + split; [|done]. intros _.
        destruct (proj1 Hp eq_refl) as (a & b & Ha & Hb & Hne). eauto 6.
      + rewrite Hi. split.
        * intros (a & b & Ha & Hb & Hne). eauto 6.
        * intros (a & b & Ha & Hb & [Hne|Hne]); [|eauto].
          assert (false = true); [|done]. apply Hp. eauto. }
  split; [|exact Hiff].
  intros Hlen. destruct (isHeterogeneous md) eqn:Hhet; [|reflexivity].
  exfalso. destruct (proj1 Hiff eq_refl) as (a & b & Ha & Hb & Hdiff).
  unfold getSubDiscussions in *.
  destruct (subDiscussions md) as [|e1 [|e2 rest]]; simpl in *; try lia.
  destruct Ha as [<-|[]], Hb as [<-|[]]. unfold differ in Hdiff. tauto.
Qed.

Lemma isHeterogeneous_all_entries_witness :
  isHeterogeneous (Memory.meta [Memory.entry Memory.discussionX 0 None]) = false /\
  isHeterogeneous Memory.twoProtocols = true.
Proof.
  split.
  - apply (proj1 (isHeterogeneous_all_entries
                    (Memory.meta [Memory.entry Memory.discussionX 0 None]))).
    simpl. lia.
  - apply (proj2 (isHeterogeneous_all_entries Memory.twoProtocols)).
    exists Memory.discussionX, Memory.discussionY.
    simpl. split; [auto|]. split; [auto|]. left. discriminate.
Defined.

(** ** addSubdiscussion *)

Lemma lookup_map {A B} (f : A -> B) (l : list A) (i : nat) :
  map f l !! i = option_map f (l !! i).
Proof.
  revert i. induction l as [|x l IH]; intros [|i]; simpl; auto.
Qed.

Lemma containsId_spec subdiscussID ids :
  containsId subdiscussID ids = true <-> In subdiscussID ids.
Proof.
  induction ids as [|id ids IH]; simpl; [done|].
  destruct (String.eqb_spec id subdiscussID) as [->|Hne].
  - split; auto.
  - rewrite IH. split; [auto | by intros [?|?]].
Qed.

(** The index loop does what [mergeFirst] says on the entries from [i] on. *)
Lemma mergeLoop_mergeFirst `{ops : SimpleDiscussionOps} protocol accountID incoming
    (subs : list Subdiscussion) : forall n i,
  (n + i)%nat = length subs ->
  mergeLoop n i (map driverName (map subdiscussion subs))
            (map localAccountId (map subdiscussion subs))
            protocol accountID incoming subs =
    match mergeFirst protocol accountID incoming (drop i subs) with
    | Some suffix => (take i subs ++ suffix, true)
    | None => (subs, false)
    end.
Proof.
  induction n as [|n IH]; intros i Hlen; simpl.
  - rewrite drop_ge by lia. reflexivity.
  - destruct (lookup_lt_is_Some_2 subs i) as [entry Hentry]; [lia|].
    rewrite !lookup_map, Hentry. simpl.
    rewrite (drop_S _ _ _ Hentry). simpl.
    destruct (String.eqb (driverName (subdiscussion entry)) protocol
              && String.eqb (localAccountId (subdiscussion entry)) accountID
              && isActive entry).
    + rewrite insert_take_drop by lia. reflexivity.
    + rewrite IH by lia.
      destruct (mergeFirst protocol accountID incoming (drop (S i) subs)); simpl;
        [|reflexivity].
      rewrite (take_S_r _ _ _ Hentry). by rewrite <- app_assoc.
Qed.

Lemma mergeFirst_None `{ops : SimpleDiscussionOps} protocol accountID incoming subs :
  mergeFirst protocol accountID incoming subs = None ->
  List.filter (ownedBy protocol accountID) subs = [].
Proof.
  induction subs as [|entry rest IH]; simpl; [done|].
  unfold ownedBy at 1.
  destruct (String.eqb (driverName (subdiscussion entry)) protocol
            && String.eqb (localAccountId (subdiscussion entry)) accountID
            && isActive entry); [done|].
  destruct (mergeFirst protocol accountID incoming rest); [done|]. auto.
Qed.

Lemma mergeFirst_Some `{ops : SimpleDiscussionOps} protocol accountID incoming :
  forall subs subs',
  mergeFirst protocol accountID incoming subs = Some subs' ->
  exists i entry,
    subs !! i = Some entry /\
    ownedBy protocol accountID entry = true /\
    (forall k other, (k < i)%nat -> subs !! k = Some other ->
                     ownedBy protocol accountID other = false) /\
    subs' = <[i := mergedEntry entry incoming]> subs.
Proof.
  induction subs as [|entry rest IH]; simpl; intros subs' Hm; [done|].
  fold (ownedBy protocol accountID entry) in Hm.
  destruct (ownedBy protocol accountID entry) eqn:Howned.
  - injection Hm as <-. exists 0%nat, entry.
    repeat split; auto. intros k other Hk. lia.
  - destruct (mergeFirst protocol accountID incoming rest) as [rest'|] eqn:Hrest;
      [|done].
    injection Hm as <-.
    destruct (IH rest' eq_refl) as (i & e & Hi & He & Hfirst & ->).
    exists (S i), e. repeat split; auto.
    intros [|k] other Hk Hother; simpl in Hother.
    + by injection Hother as <-.
    + apply (Hfirst k); [lia | done].
Qed.

Lemma mergeFirst_found `{ops : SimpleDiscussionOps} protocol accountID incoming subs entry :
  In entry subs -> ownedBy protocol accountID entry = true ->
  exists subs', mergeFirst protocol accountID incoming subs = Some subs'.
Proof.
  induction subs as [|e rest IH]; simpl; [done|].
  fold (ownedBy protocol accountID e).
  intros [->|Hin] Howned.
  - rewrite Howned. eauto.
  - destruct (ownedBy protocol accountID e); [eauto|].
    destruct (IH Hin Howned) as [rest' ->]. simpl. eauto.
Qed.

Lemma ownedBy_mergedEntry `{ops : SimpleDiscussionOps} protocol accountID entry incoming :
  mergeKeepsOwner ops ->
  ownedBy protocol accountID (mergedEntry entry incoming) =
  ownedBy protocol accountID entry.
Proof.
  intros Hkeep. unfold ownedBy, mergedEntry, isActive. simpl.
  destruct (Hkeep (subdiscussion entry) incoming) as [-> ->]. reflexivity.
Qed.

Lemma filter_insert_merged `{ops : SimpleDiscussionOps} protocol accountID incoming :
  mergeKeepsOwner ops ->
  forall subs i entry,
  subs !! i = Some entry ->
  length (List.filter (ownedBy protocol accountID)
            (<[i := mergedEntry entry incoming]> subs)) =
  length (List.filter (ownedBy protocol accountID) subs).
Proof.
  intros Hkeep. induction subs as [|e rest IH]; intros [|i] entry Hi;
    simpl in *; try done.
  - injection Hi as ->. rewrite ownedBy_mergedEntry by done.
    by destruct (ownedBy protocol accountID entry).
  - destruct (ownedBy protocol accountID e); simpl; erewrite IH; eauto.
Qed.

Lemma withSubDiscussions_same md : withSubDiscussions md (subDiscussions md) = md.
Proof. by destruct md. Qed.

(** C8. When the id of the incoming discussion is the id of the discussion
    of a registry entry, [addSubdiscussion] rejects with "Already existing"
    and the meta-discussion is as it was. *)
Theorem addSubdiscussion_conflict `{ops : SimpleDiscussionOps}
    (md : MetaDiscussion) (subDiscussion : SimpleDiscussion) (now : Z) :
  (exists entry, In entry (subDiscussions md) /\
     discussionGlobalId (subdiscussion entry) = discussionGlobalId subDiscussion) ->
  addSubdiscussion md subDiscussion now = (md, Err AlreadyExisting).
Proof.
  intros (entry & Hin & Hid). unfold addSubdiscussion.
  assert (Hc : containsId (discussionGlobalId subDiscussion)
                 (map discussionGlobalId (getSubDiscussions md)) = true).
  { apply containsId_spec. rewrite <- Hid.
    unfold getSubDiscussions. by apply in_map, in_map. }
  by rewrite Hc.
Qed.

Lemma addSubdiscussion_conflict_witness :
  @addSubdiscussion Memory.ops Memory.joinedAndLeft Memory.discussionY 9 =
    (Memory.joinedAndLeft, Err AlreadyExisting).
Proof.
  apply (@addSubdiscussion_conflict Memory.ops).
  exists (Memory.entry Memory.discussionY 0 (Some 700000)).
  simpl. auto.
Defined.

(** C5. The registry holds an active entry of the driver and local account
    of the incoming discussion, whose id is the id of no entry.  Then
    [addSubdiscussion] succeeds, merges the incoming discussion into the
    first such entry and appends nothing: the registry keeps its length
    and its number of active entries of that pair, so that a registry with
    exactly one active entry of the pair has exactly one afterwards. *)
Theorem addSubdiscussion_merges `{ops : SimpleDiscussionOps}
    (md : MetaDiscussion) (subDiscussion : SimpleDiscussion) (now : Z) :
  mergeKeepsOwner ops ->
  ~ In (discussionGlobalId subDiscussion)
       (map discussionGlobalId (getSubDiscussions md)) ->
  (exists entry, In entry (subDiscussions md) /\
     ownedBy (driverName subDiscussion) (localAccountId subDiscussion) entry = true) ->
  let after := fst (addSubdiscussion md subDiscussion now) in
  let count := activeCount (driverName subDiscussion) (localAccountId subDiscussion) in
  (exists i entry,
     subDiscussions md !! i = Some entry /\
     ownedBy (driverName subDiscussion) (localAccountId subDiscussion) entry = true /\
     addSubdiscussion md subDiscussion now =
       (withSubDiscussions md
          (<[i := mergedEntry entry subDiscussion]> (subDiscussions md)), Ok tt)) /\
  length (subDiscussions after) = length (subDiscussions md) /\
  count (subDiscussions after) = count (subDiscussions md) /\
  (count (subDiscussions md) = 1%nat -> count (subDiscussions after) = 1%nat).
Proof.
  intros Hkeep Hfresh (entry & Hin & Howned). simpl.
  unfold addSubdiscussion.
  destruct (containsId _ _) eqn:Hc; [by apply containsId_spec in Hc|].
  unfold getSubDiscussions. rewrite !length_map.
  rewrite mergeLoop_mergeFirst by lia. rewrite drop_0.
  destruct (mergeFirst_found _ _ subDiscussion _ _ Hin Howned) as [subs' Hm].
  rewrite Hm.
  destruct (mergeFirst_Some _ _ _ _ _ Hm) as (i & e & Hi & He & _ & ->).
  simpl. unfold activeCount.
  rewrite length_insert, (filter_insert_merged _ _ _ Hkeep _ _ _ Hi).
  repeat split; eauto.
Qed.

Lemma addSubdiscussion_merges_witness :
  activeCount "x" "x:me" (subDiscussions Memory.twoProtocols) = 1%nat /\
  @addSubdiscussion Memory.ops Memory.twoProtocols Memory.discussionX2 9 =
    (Memory.meta
       [Memory.entry
          {| discussionGlobalId := "x:d1+x:d2"; driverName := "x";
             localAccountId := "x:me" |} (-10) None;
        Memory.entry Memory.discussionY (-10) None], Ok tt) /\
  activeCount "x" "x:me"
    (subDiscussions
       (fst (@addSubdiscussion Memory.ops Memory.twoProtocols Memory.discussionX2 9)))
    = 1%nat.
Proof.
  split; [reflexivity|]. split; [reflexivity|].
  refine (proj2 (proj2 (proj2
    (@addSubdiscussion_merges Memory.ops Memory.twoProtocols Memory.discussionX2 9
       _ _ _))) eq_refl).
  - intros discussion other. split; reflexivity.
  - simpl. intros [H|[H|[]]]; discriminate H.
  - exists (Memory.entry Memory.discussionX (-10) None). split; [by left | reflexivity].
Defined.

(** The invariant of the data model is kept by [addSubdiscussion],
    whatever discussion comes in. *)
Lemma addSubdiscussion_keeps_invariant `{ops : SimpleDiscussionOps}
    (md : MetaDiscussion) (subDiscussion : SimpleDiscussion) (now : Z) :
  mergeKeepsOwner ops ->
  atMostOneActive (subDiscussions md) ->
  atMostOneActive (subDiscussions (fst (addSubdiscussion md subDiscussion now))).
Proof.
  intros Hkeep Hinv. unfold addSubdiscussion.
  destruct (containsId _ _); [exact Hinv|].
  unfold getSubDiscussions. rewrite !length_map.
  rewrite mergeLoop_mergeFirst by lia. rewrite drop_0.
  destruct (mergeFirst _ _ subDiscussion (subDiscussions md)) as [subs'|] eqn:Hm;
    simpl.
  - destruct (mergeFirst_Some _ _ _ _ _ Hm) as (i & e & Hi & _ & _ & ->).
    intros protocol accountID.
    rewrite (filter_insert_merged _ _ _ Hkeep _ _ _ Hi). apply Hinv.
  - apply mergeFirst_None in Hm.
    intros protocol accountID. rewrite List.filter_app, length_app. simpl.
    destruct (ownedBy protocol accountID _) eqn:Hnew; simpl.
    + unfold ownedBy in Hnew. simpl in Hnew.
      apply andb_prop in Hnew as [Hnew _]. apply andb_prop in Hnew as [Hp Ha].
      apply String.eqb_eq in Hp, Ha. subst. rewrite Hm. simpl. lia.
    + specialize (Hinv protocol accountID). lia.
Qed.

(** ** removeSubdiscussion *)

(** The test of the loop is false the first time it is evaluated: the body
    of the loop never runs, for any list [sames] and any registry. *)
Lemma removeLoop_nothing fuel sames now subs :
  removeLoop fuel sames now subs = (subs, false).
Proof. destruct fuel; reflexivity. Qed.

(** On a registry that is not empty, [removeSubdiscussion] rejects with
    "No such discussion" and leaves the registry as it was, whether or not
    an active entry holds the discussion. *)
Lemma removeSubdiscussion_rejects `{ops : SimpleDiscussionOps}
    (md : MetaDiscussion) (subDiscussion : SimpleDiscussion) (now : Z) :
  removeSubdiscussion md subDiscussion now =
    (md, Err (if (length (subDiscussions md) =? 0)%nat
              then EmptyMetaDiscussion else NoSuchDiscussion)).
Proof.
  unfold removeSubdiscussion.
  destruct (length (subDiscussions md) =? 0)%nat; [reflexivity|].
  rewrite removeLoop_nothing. simpl. by rewrite withSubDiscussions_same.
Qed.

(** C4, evaluated.  The first entry of the registry is active and holds the
    very discussion that is removed; the call rejects with "No such
    discussion" and no entry gets a [removed] date. *)
Theorem removeSubdiscussion_active_entry :
  subDiscussions Memory.twoProtocols !! 0%nat =
    Some (Memory.entry Memory.discussionX (-10) None) /\
  @sd_isTheSameAs Memory.ops Memory.discussionX Memory.discussionX = true /\
  @removeSubdiscussion Memory.ops Memory.twoProtocols Memory.discussionX 9 =
    (Memory.twoProtocols, Err NoSuchDiscussion).
Proof. repeat split. Qed.

(** ** The relay *)

Lemma mapM_Forall2_Ok {A B} (f : A -> Result B) (l : list A) (ys : list B) :
  Forall2 (fun x y => f x = Ok y) l ys -> mapM f l = Ok ys.
Proof.
  induction 1 as [|x y l ys Hx _ IH]; simpl; [reflexivity|].
  by rewrite Hx, IH.
Qed.

(** C6, the claim at a meta-discussion of three discussions where the send
    on the second fails and the send on the third succeeds: both sends are
    made, and no event is emitted, where the claim has the event with the
    successful send and the original. *)
Lemma relay_aborts_on_failed_send :
  @sd_sendMessage Memory.ops Memory.discussionZ (relayedMessage Memory.hello)
    = Err (External "unreachable") /\
  @sd_sendMessage Memory.ops Memory.discussionY (relayedMessage Memory.hello)
    = Ok Memory.relayedHello /\
  @onMessage Memory.ops Memory.withUnreachable Memory.discussionX Memory.hello =
    ([(Memory.discussionZ, relayedMessage Memory.hello);
      (Memory.discussionY, relayedMessage Memory.hello)], []) /\
  @absorbingEvent Memory.ops Memory.withUnreachable Memory.discussionX Memory.hello =
    {| eventType := "message";
       eventMessage := newMetaMessage [Memory.relayedHello; Memory.hello] |} /\
  snd (@onMessage Memory.ops Memory.withUnreachable Memory.discussionX Memory.hello)
    <> [@absorbingEvent Memory.ops Memory.withUnreachable Memory.discussionX
          Memory.hello].
Proof. repeat split. discriminate. Qed.

(** C6, amended.  On an incoming message a send is made on every other
    sub-discussion, whatever the outcome of the others.  When all the sends
    succeed, one "message" event is emitted, with the messages sent and
    the original; when one of them fails, the relay is rejected and no
    event is emitted. *)
Theorem relay_all_or_nothing `{ops : SimpleDiscussionOps}
    (md : MetaDiscussion) (discussion : SimpleDiscussion) (message : SimpleMessage) :
  let targets := relayTargets md discussion in
  let send := fun target => sd_sendMessage target (relayedMessage message) in
  fst (onMessage md discussion message) =
    map (fun target => (target, relayedMessage message)) targets /\
  (forall subMessages,
     Forall2 (fun target sent => send target = Ok sent) targets subMessages ->
     snd (onMessage md discussion message) =
       [{| eventType := "message";
           eventMessage := newMetaMessage (subMessages ++ [message]) |}]) /\
  (forall target e,
     In target targets -> send target = Err e ->
     (exists e', relayed (dispatchFrom md discussion message) = Err e') /\
     snd (onMessage md discussion message) = []).
Proof.
  simpl. split; [reflexivity|]. split.
  - intros subMessages Hall. unfold onMessage, dispatchFrom. simpl.
    by rewrite (mapM_Forall2_Ok
                  (fun okSubdiscussion =>
                     sd_sendMessage okSubdiscussion (relayedMessage message))
                  _ _ Hall).
  - intros target e Hin Herr. unfold onMessage, dispatchFrom. simpl.
    destruct (mapM_Err
                (fun okSubdiscussion =>
                   sd_sendMessage okSubdiscussion (relayedMessage message))
                _ _ _ Hin Herr) as [e' ->].
    simpl. eauto.
Qed.

Lemma relay_all_or_nothing_witness :
  snd (@onMessage Memory.ops Memory.twoProtocols Memory.discussionX Memory.hello) =
    [{| eventType := "message";
        eventMessage := newMetaMessage [Memory.relayedHello; Memory.hello] |}] /\
  snd (@onMessage Memory.ops Memory.withUnreachable Memory.discussionX Memory.hello)
    = [].
Proof.
  split.
  - apply (proj1 (proj2 (@relay_all_or_nothing Memory.ops Memory.twoProtocols
                           Memory.discussionX Memory.hello))
             [Memory.relayedHello]).
    simpl. repeat constructor.
  - apply (proj2 (proj2 (@relay_all_or_nothing Memory.ops Memory.withUnreachable
                           Memory.discussionX Memory.hello))
             Memory.discussionZ (External "unreachable")).
    + simpl. auto.
    + reflexivity.
Defined.

(** ** User.getOrCreateDiscussion *)

Lemma indexOfFound_spec ids contactID :
  indexOfFound ids contactID = true <-> In contactID ids.
Proof.
  induction ids as [|id ids IH]; simpl; [done|].
  destruct (String.eqb_spec id contactID) as [->|Hne].
  - split; auto.
  - rewrite IH. split; [auto | by intros [?|?]].
Qed.

(** An account that knows none of the targets leaves [rightUser] as it is. *)
Lemma scanContacts_unknown userAccount targets rightUser :
  ~ knowsOneOf (fua_contactsIDs userAccount) targets ->
  scanContacts userAccount (map contactGlobalId targets) rightUser = (rightUser, false).
Proof.
  unfold knowsOneOf.
  induction targets as [|contact targets IH]; simpl; intros Hno; [reflexivity|].
  destruct (indexOfFound _ _) eqn:Hfound.
  - exfalso. apply indexOfFound_spec in Hfound. apply Hno. exists contact. auto.
  - apply IH. intros (c & Hc & Hin). apply Hno. exists c. auto.
Qed.

(** An account met while [rightUser] is unset, or is this very account,
    becomes [rightUser] if it knows one of the targets. *)
Lemma scanContacts_own userAccount targets rightUser :
  rightUser = None \/ rightUser = Some (fua_user userAccount) ->
  knowsOneOf (fua_contactsIDs userAccount) targets ->
  scanContacts userAccount (map contactGlobalId targets) rightUser =
    (Some (fua_user userAccount), false).
Proof.
  unfold knowsOneOf. revert rightUser.
  induction targets as [|contact targets IH]; simpl; intros rightUser Hr Hknows.
  - by destruct Hknows as (? & [] & _).
  - destruct (indexOfFound _ _) eqn:Hfound.
    + assert (Hnext : scanContacts userAccount (map contactGlobalId targets)
                        (Some (fua_user userAccount)) =
                      (Some (fua_user userAccount), false)).
      { clear -targets. induction targets as [|c cs IHc]; simpl; [reflexivity|].
        unfold sameAccountObject. rewrite Nat.eqb_refl. simpl.
        by destruct (indexOfFound _ _). }
      destruct Hr as [->| ->]; [exact Hnext|].
      unfold sameAccountObject. rewrite Nat.eqb_refl. simpl. exact Hnext.
    + apply IH; [exact Hr|].
      destruct Hknows as (c & [<-|Hc] & Hin); [|eauto].
      apply indexOfFound_spec in Hin. congruence.
Qed.

Lemma scanAccounts_unknown full targets rightUser :
  (forall userAccount, In userAccount full ->
     ~ knowsOneOf (fua_contactsIDs userAccount) targets) ->
  scanAccounts full (map contactGlobalId targets) rightUser = (rightUser, false).
Proof.
  induction full as [|userAccount full IH]; simpl; intros Hno; [reflexivity|].
  rewrite scanContacts_unknown by auto. auto.
Qed.

(** C9. Once the contacts of every account are known: when no account
    knows one of the targets, [getOrCreateDiscussion] rejects with "One of
    the contacts is unknown by the current user."; when exactly one account
    does, the result is the result of [getOrCreateDiscussion] of that
    account, a simple discussion, and no meta-discussion is built. *)
Theorem getOrCreateDiscussion_resolution `{ops : SimpleDiscussionOps}
    `{accountOps : UserAccountOps}
    (u : User) (targets : list ContactAccount) (uuid : string) (now : Z)
    (full : list FullUserAccount) :
  fullAccounts u = Ok full ->
  ((forall userAccount, In userAccount full ->
      ~ knowsOneOf (fua_contactsIDs userAccount) targets) ->
   getOrCreateDiscussion u targets uuid now = Err ContactUnknownByUser) /\
  (forall before account after,
     full = before ++ account :: after ->
     knowsOneOf (fua_contactsIDs account) targets ->
     (forall other, In other (before ++ after) ->
        ~ knowsOneOf (fua_contactsIDs other) targets) ->
     getOrCreateDiscussion u targets uuid now =
       (d <- ua_getOrCreateDiscussion (fua_user account) targets ;; Ok (Simple d))).
Proof.
  intros Hfull. unfold getOrCreateDiscussion. rewrite Hfull. simpl. split.
  - intros Hno. by rewrite scanAccounts_unknown.
  - intros before account after -> Hknows Hothers.
    assert (Hscan : scanAccounts (before ++ account :: after)
                      (map contactGlobalId targets) None =
                    (Some (fua_user account), false)).
    { assert (Hb : forall other, In other before ->
                ~ knowsOneOf (fua_contactsIDs other) targets)
        by (intros; apply Hothers, in_or_app; auto).
      assert (Ha : forall other, In other after ->
                ~ knowsOneOf (fua_contactsIDs other) targets)
        by (intros; apply Hothers, in_or_app; auto).
      clear Hothers Hfull. induction before as [|b before IH]; simpl.
      - rewrite scanContacts_own by auto.
        by apply scanAccounts_unknown.
      - rewrite scanContacts_unknown by (apply Hb; by left).
        apply IH. intros; apply Hb; by right. }
    by rewrite Hscan.
Qed.

Lemma getOrCreateDiscussion_resolution_witness :
  @getOrCreateDiscussion Memory.ops Memory.accountOps Memory.user [Memory.carol]
     "m2" 9 = Err ContactUnknownByUser /\
  @getOrCreateDiscussion Memory.ops Memory.accountOps Memory.user [Memory.alice]
     "m2" 9 = Ok (Simple Memory.discussionX).
Proof.
  pose (fullX := {| fua_user := Memory.accountX; fua_contactsIDs := ["x:alice"] |}).
  pose (fullY := {| fua_user := Memory.accountY; fua_contactsIDs := ["y:bob"] |}).
  split.
  - apply (proj1 (@getOrCreateDiscussion_resolution Memory.ops Memory.accountOps
                    Memory.user [Memory.carol] "m2" 9 [fullX; fullY] eq_refl)).
    intros userAccount [<-|[<-|[]]] (c & [<-|[]] & [H|[]]); discriminate H.
  - apply (proj2 (@getOrCreateDiscussion_resolution Memory.ops Memory.accountOps
                    Memory.user [Memory.alice] "m2" 9 [fullX; fullY] eq_refl)
             [] fullX [fullY] eq_refl).
    + exists Memory.alice. simpl. auto.
    + intros other [<-|[]] (c & [<-|[]] & [H|[]]). discriminate H.
Defined.

(** * Further properties *)

(** ** addSubdiscussion: the entry appended *)

Lemma mergeFirst_no_owner `{ops : SimpleDiscussionOps} protocol accountID incoming subs :
  List.filter (ownedBy protocol accountID) subs = [] ->
  mergeFirst protocol accountID incoming subs = None.
Proof.
  induction subs as [|entry rest IH]; simpl; [done|].
  fold (ownedBy protocol accountID entry).
  destruct (ownedBy protocol accountID entry); [done|].
  intros Hrest. by rewrite IH.
Qed.

Lemma mergeFirst_after_strangers `{ops : SimpleDiscussionOps} protocol accountID
    incoming subs more :
  List.filter (ownedBy protocol accountID) subs = [] ->
  mergeFirst protocol accountID incoming (subs ++ more) =
    option_map (app subs) (mergeFirst protocol accountID incoming more).
Proof.
  induction subs as [|entry rest IH]; simpl.
  - intros _. by destruct (mergeFirst _ _ _ more).
  - fold (ownedBy protocol accountID entry).
    destruct (ownedBy protocol accountID entry); [done|].
    intros Hrest. rewrite IH by done.
    by destruct (mergeFirst _ _ _ more).
Qed.

Lemma mergeFirst_dates `{ops : SimpleDiscussionOps} protocol accountID incoming :
  forall subs subs',
  mergeFirst protocol accountID incoming subs = Some subs' ->
  map (fun entry => (added entry, removed entry)) subs' =
  map (fun entry => (added entry, removed entry)) subs.
Proof.
  induction subs as [|entry rest IH]; simpl; intros subs' Hm; [done|].
  destruct (String.eqb _ _ && String.eqb _ _ && isActive entry).
  - by injection Hm as <-.
  - destruct (mergeFirst protocol accountID incoming rest) as [rest'|]; [|done].
    injection Hm as <-. simpl. f_equal. by apply IH.
Qed.

(** The registry after [addSubdiscussion], by the outcome of the id check
    and of the search of an active entry of the driver and account. *)
Lemma addSubdiscussion_cases `{ops : SimpleDiscussionOps}
    (md : MetaDiscussion) (subDiscussion : SimpleDiscussion) (now : Z) :
  addSubdiscussion md subDiscussion now =
    if containsId (discussionGlobalId subDiscussion)
                  (map discussionGlobalId (getSubDiscussions md))
    then (md, Err AlreadyExisting)
    else
      match mergeFirst (driverName subDiscussion) (localAccountId subDiscussion)
                       subDiscussion (subDiscussions md) with
      | Some subs => (withSubDiscussions md subs, Ok tt)
      | None =>
        (withSubDiscussions md
           (subDiscussions md ++
            [{| subdiscussion := subDiscussion; added := now; removed := None |}]),
         Ok tt)
      end.
Proof.
  unfold addSubdiscussion. destruct (containsId _ _); [reflexivity|].
  unfold getSubDiscussions. rewrite !length_map.
  rewrite mergeLoop_mergeFirst by lia. rewrite drop_0.
  by destruct (mergeFirst _ _ _ _).
Qed.

Lemma containsId_fresh subdiscussID ids :
  ~ In subdiscussID ids -> containsId subdiscussID ids = false.
Proof.
  intros Hfresh. destruct (containsId subdiscussID ids) eqn:Hc; [|reflexivity].
  by apply containsId_spec in Hc.
Qed.

(** When the id of the incoming discussion is the id of no entry and no
    active entry has its driver and local account, [addSubdiscussion]
    succeeds and appends one entry, active and added at the current time,
    after the entries of the registry, which stay as they are; the pair then
    has exactly one active entry. *)
Theorem addSubdiscussion_appends `{ops : SimpleDiscussionOps}
    (md : MetaDiscussion) (subDiscussion : SimpleDiscussion) (now : Z) :
  ~ In (discussionGlobalId subDiscussion)
       (map discussionGlobalId (getSubDiscussions md)) ->
  activeCount (driverName subDiscussion) (localAccountId subDiscussion)
              (subDiscussions md) = 0%nat ->
  addSubdiscussion md subDiscussion now =
    (withSubDiscussions md
       (subDiscussions md ++
        [{| subdiscussion := subDiscussion; added := now; removed := None |}]),
     Ok tt) /\
  activeCount (driverName subDiscussion) (localAccountId subDiscussion)
    (subDiscussions (fst (addSubdiscussion md subDiscussion now))) = 1%nat.
Proof.
  intros Hfresh Hnone. unfold activeCount in *.
  apply length_zero_iff_nil in Hnone.
  rewrite addSubdiscussion_cases, (containsId_fresh _ _ Hfresh).
  rewrite (mergeFirst_no_owner _ _ _ _ Hnone). split; [reflexivity|].
  simpl. rewrite List.filter_app, Hnone. simpl.
  unfold ownedBy. simpl. by rewrite !String.eqb_refl.
Qed.

Lemma addSubdiscussion_appends_witness :
  @addSubdiscussion Memory.ops Memory.twoProtocols Memory.discussionZ 9 =
    (Memory.meta [Memory.entry Memory.discussionX (-10) None;
                  Memory.entry Memory.discussionY (-10) None;
                  Memory.entry Memory.discussionZ 9 None], Ok tt).
Proof.
  refine (proj1 (@addSubdiscussion_appends Memory.ops Memory.twoProtocols
                   Memory.discussionZ 9 _ eq_refl)).
  simpl. intros [H|[H|[]]]; discriminate H.
Defined.

Lemma addSubdiscussion_keeps_invariant_witness :
  atMostOneActive
    (subDiscussions
       (fst (@addSubdiscussion Memory.ops
               (Memory.meta [Memory.entry Memory.discussionX 0 None])
               Memory.discussionX2 9))).
Proof.
  apply (@addSubdiscussion_keeps_invariant Memory.ops).
  - intros discussion other. split; reflexivity.
  - intros protocol accountID. simpl.
    destruct (ownedBy protocol accountID _); simpl; lia.
Defined.

(** [addSubdiscussion] never drops an entry and never touches the dates of
    the entries it finds: whatever comes in, the registry after the call has
    the entries of before at the same places with the same [added] and
    [removed] dates, followed by at most one new entry. *)
Theorem addSubdiscussion_keeps_dates `{ops : SimpleDiscussionOps}
    (md : MetaDiscussion) (subDiscussion : SimpleDiscussion) (now : Z) :
  let after := subDiscussions (fst (addSubdiscussion md subDiscussion now)) in
  map (fun entry => (added entry, removed entry))
      (take (length (subDiscussions md)) after) =
  map (fun entry => (added entry, removed entry)) (subDiscussions md) /\
  (length (subDiscussions md) <= length after <= S (length (subDiscussions md)))%nat.
Proof.
  simpl. rewrite addSubdiscussion_cases.
  destruct (containsId _ _); simpl.
  - rewrite take_ge by lia. split; [reflexivity | lia].
  - destruct (mergeFirst _ _ _ _) as [subs|] eqn:Hm; simpl.
    + pose proof (mergeFirst_dates _ _ _ _ _ Hm) as Hdates.
      assert (Hlen : length subs = length (subDiscussions md)).
      { apply (f_equal length) in Hdates. by rewrite !length_map in Hdates. }
      rewrite take_ge by lia. split; [exact Hdates | lia].
    + rewrite take_app_length. rewrite length_app. simpl. split; [reflexivity | lia].
Qed.

(** Two discussions of one driver and local account, with two ids that the
    registry does not hold, added one after the other to a registry with no
    active entry of that pair: both calls succeed, the first appends an
    entry and the second merges into it, so the registry has one more
    entry, the only active one of the pair. *)
Theorem addSubdiscussion_twice `{ops : SimpleDiscussionOps}
    (md : MetaDiscussion) (first second : SimpleDiscussion) (t1 t2 : Z) :
  mergeKeepsOwner ops ->
  driverName second = driverName first ->
  localAccountId second = localAccountId first ->
  discussionGlobalId second <> discussionGlobalId first ->
  ~ In (discussionGlobalId first) (map discussionGlobalId (getSubDiscussions md)) ->
  ~ In (discussionGlobalId second) (map discussionGlobalId (getSubDiscussions md)) ->
  activeCount (driverName first) (localAccountId first) (subDiscussions md) = 0%nat ->
  let once := addSubdiscussion md first t1 in
  let twice := addSubdiscussion (fst once) second t2 in
  snd once = Ok tt /\ snd twice = Ok tt /\
  subDiscussions (fst twice) =
    subDiscussions md ++
    [mergedEntry {| subdiscussion := first; added := t1; removed := None |} second] /\
  activeCount (driverName first) (localAccountId first) (subDiscussions (fst twice))
    = 1%nat.
Proof.
  intros Hkeep Hdriver Haccount Hids Hfresh1 Hfresh2 Hnone. simpl.
  unfold activeCount in *. apply length_zero_iff_nil in Hnone.
  rewrite (addSubdiscussion_cases md), (containsId_fresh _ _ Hfresh1).
  rewrite (mergeFirst_no_owner _ _ _ _ Hnone). simpl.
  split; [reflexivity|].
  assert (Htwice :
    addSubdiscussion
      (withSubDiscussions md
         (subDiscussions md ++
          [{| subdiscussion := first; added := t1; removed := None |}]))
      second t2 =
    (withSubDiscussions md
       (subDiscussions md ++
        [mergedEntry {| subdiscussion := first; added := t1; removed := None |}
                     second]), Ok tt)).
  { rewrite addSubdiscussion_cases. unfold getSubDiscussions. simpl.
    rewrite !map_app. simpl.
    rewrite containsId_fresh.
    2:{ intros Hin. apply in_app_or in Hin as [Hin|[Heq|[]]]; [by apply Hfresh2|].
        by apply Hids. }
    rewrite Hdriver, Haccount.
    rewrite (mergeFirst_after_strangers _ _ _ _ _ Hnone). simpl.
    by rewrite !String.eqb_refl. }
  rewrite Htwice. simpl. repeat split.
  rewrite List.filter_app, Hnone. simpl.
  rewrite ownedBy_mergedEntry by done.
  unfold ownedBy. simpl. by rewrite !String.eqb_refl.
Qed.

Lemma addSubdiscussion_twice_witness :
  let md := Memory.meta [Memory.entry Memory.discussionY 0 None] in
  subDiscussions
    (fst (@addSubdiscussion Memory.ops
            (fst (@addSubdiscussion Memory.ops md Memory.discussionX 5))
            Memory.discussionX2 9)) =
    [Memory.entry Memory.discussionY 0 None;
     Memory.entry {| discussionGlobalId := "x:d1+x:d2"; driverName := "x";
                     localAccountId := "x:me" |} 5 None].
Proof.
  simpl.
  refine (proj1 (proj2 (proj2
    (@addSubdiscussion_twice Memory.ops
       (Memory.meta [Memory.entry Memory.discussionY 0 None])
       Memory.discussionX Memory.discussionX2 5 9 _ eq_refl eq_refl _ _ _ eq_refl)))).
  - intros discussion other. split; reflexivity.
  - discriminate.
  - simpl. intros [H|[]]; discriminate H.
  - simpl. intros [H|[]]; discriminate H.
Defined.

(** ** getMessages: what is merged, and when the call resolves *)

Lemma getMessages_merges_equal_bodies_witness :
  exists g,
    In g [newMetaMessage [Memory.early];
          newMetaMessage [Memory.hello; Memory.helloAgain];
          newMetaMessage [Memory.question];
          newMetaMessage [Memory.late]] /\
    In Memory.hello (constituents g) /\ In Memory.helloAgain (constituents g).
Proof.
  apply (@getMessages_merges_equal_bodies Memory.ops Memory.twoProtocols None _ _
           {| msg := Memory.hello; date := 0 |}
           {| msg := Memory.helloAgain; date := 600000 |} eq_refl eq_refl);
    simpl; auto.
Defined.

Lemma scan_folded_body message cands c :
  In c (fst (scan message cands)) -> body (msg message) = body (msg c).
Proof.
  induction cands as [|x xs IH]; simpl; [done|].
  destruct (date message >? date x + mergeWindow); [done|].
  destruct (scan message xs) as [folded kept]. simpl in IH.
  destruct (hasTheSameBodyAs (msg message) (msg x)) eqn:Hsame; simpl; [|exact IH].
  intros [<-|Hin]; [|auto]. by apply String.eqb_eq.
Qed.

Lemma sweep_single_body fuel : forall l g a b,
  In g (sweep fuel l) ->
  In a (constituents g) -> In b (constituents g) -> body a = body b.
Proof.
  induction fuel as [|fuel IH]; intros [|m rest] g a b; simpl; try done.
  pose proof (scan_folded_body m rest) as Hbody.
  destruct (scan m rest) as [folded kept]. simpl in *.
  intros [<-|Hg]; [|eauto]. simpl.
  assert (Hhead : forall x, msg m = x \/ In x (map msg folded) ->
                            body x = body (msg m)).
  { intros x [<-|Hx]; [reflexivity|].
    apply in_map_iff in Hx as (c & <- & Hc). symmetry. auto. }
  intros Ha Hb. by rewrite (Hhead a Ha), (Hhead b Hb).
Qed.

(** The messages of one Meta-Message returned by [getMessages] all have
    the same body: messages with different bodies are never merged. *)
Theorem getMessages_single_body `{ops : SimpleDiscussionOps}
    (md : MetaDiscussion) (options : option GetMessagesOptions)
    (out : list MetaMessage) :
  getMessages md options = Ok out ->
  forall g a b, In g out ->
    In a (constituents g) -> In b (constituents g) -> body a = body b.
Proof.
  intros Hout g a b Hg. unfold getMessages in Hout.
  apply bind_Ok in Hout as (pool & _ & Hout). injection Hout as <-.
  rewrite deduplicate_sweep in Hg. by eapply sweep_single_body.
Qed.

Lemma getMessages_single_body_witness :
  body Memory.hello = body Memory.helloAgain.
Proof.
  apply (@getMessages_single_body Memory.ops Memory.twoProtocols None _ eq_refl
           (newMetaMessage [Memory.hello; Memory.helloAgain]));
    simpl; auto.
Defined.

Lemma mapM_Ok_each {A B} (f : A -> Result B) (l : list A) (ys : list B) :
  mapM f l = Ok ys -> forall x, In x l -> exists y, f x = Ok y.
Proof.
  intros Hm. apply mapM_Ok_Forall2 in Hm.
  induction Hm as [|x y l ys Hx _ IH]; intros z Hz; [done|].
  destruct Hz as [<-|Hz]; eauto.
Qed.

(** [getMessages] resolves exactly when the fetch of every registry entry,
    removed or not, resolves: one sub-discussion that cannot be read makes
    the whole call reject. *)
Theorem getMessages_resolves `{ops : SimpleDiscussionOps}
    (md : MetaDiscussion) (options : option GetMessagesOptions) :
  let opts0 := match options with Some o => o | None => defaultOptions end in
  let smallFilter :=
    match options with Some o => messageFilter o | None => None end in
  (exists out, getMessages md options = Ok out) <->
  (forall entry, In entry (subDiscussions md) ->
     exists fetched,
       sd_getMessages (subdiscussion entry)
                      (sharedOptions opts0 smallFilter (subDiscussions md) entry)
         = Ok fetched).
Proof.
  simpl. unfold getMessages, survivingMessages, getDatedSubdiscussions. split.
  - intros (out & Hout) entry Hentry.
    apply bind_Ok in Hout as (pool & Hpool & _).
    apply bind_Ok in Hpool as (perEntry & Hmap & _).
    destruct (mapM_Ok_each _ _ _ Hmap entry Hentry) as (ds & Hds).
    unfold entryMessages in Hds.
    apply bind_Ok in Hds as (fetched & Hfetch & _). eauto.
  - intros Hall.
    destruct (mapM_all_Ok
      (entryMessages
         (match options with Some o => o | None => defaultOptions end)
         (match options with Some o => messageFilter o | None => None end)
         (subDiscussions md))
      (subDiscussions md)) as [perEntry ->].
    + intros entry Hentry. destruct (Hall entry Hentry) as [fetched Hfetch].
      unfold entryMessages. rewrite Hfetch. simpl. eauto.
    + simpl. eauto.
Qed.

Lemma getMessages_resolves_witness :
  exists out, @getMessages Memory.ops Memory.joinedAndLeft None = Ok out.
Proof.
  apply (proj2 (@getMessages_resolves Memory.ops Memory.joinedAndLeft None)).
  intros entry Hentry. simpl. eauto.
Defined.

(** ** getCreationDate *)

Lemma earliest_of_dates (dates : list Z) : forall accumulator,
  match fold_left earlierDate (map Some dates) accumulator with
  | None => accumulator = None /\ dates = []
  | Some t =>
    (accumulator = Some t \/ In t dates) /\
    (forall a, accumulator = Some a -> t <= a) /\
    (forall d, In d dates -> t <= d)
  end.
Proof.
  induction dates as [|d dates IH]; intros accumulator; simpl.
  - destruct accumulator as [a|]; [|done].
    repeat split; [auto | intros ? [= <-]; lia | intros ? []].
  - specialize (IH (earlierDate accumulator (Some d))).
    destruct (fold_left _ _ _) as [t|].
    + destruct IH as (Hfrom & Hacc & Hall).
      destruct accumulator as [a|]; simpl in *.
      * destruct (Z.ltb_spec d a) as [Hlt|Hge].
        -- specialize (Hacc d eq_refl). repeat split.
           ++ destruct Hfrom as [[= <-]|Hin]; auto.
           ++ intros ? [= <-]. lia.
           ++ intros x [<-|Hx]; auto.
        -- specialize (Hacc a eq_refl). repeat split.
           ++ destruct Hfrom as [[= <-]|Hin]; auto.
           ++ intros ? [= <-]. lia.
           ++ intros x [<-|Hx]; [lia | auto].
      * specialize (Hacc d eq_refl). repeat split.
        -- destruct Hfrom as [[= <-]|Hin]; auto.
        -- done.
        -- intros x [<-|Hx]; auto.
    + destruct IH as [Hnone _].
      destruct accumulator as [a|]; simpl in Hnone; [|done].
      by destruct (d <? a).
Qed.

(** [getCreationDate] is [null] exactly for an empty registry; otherwise it
    is the [added] date of an entry and no entry, removed or not, was added
    before it. *)
Theorem getCreationDate_earliest (md : MetaDiscussion) :
  match getCreationDate md with
  | None => subDiscussions md = []
  | Some t =>
    (exists entry, In entry (subDiscussions md) /\ added entry = t) /\
    (forall entry, In entry (subDiscussions md) -> t <= added entry)
  end.
Proof.
  unfold getCreationDate, getDatedSubdiscussions.
  replace (map (fun subdiscussion => Some (added subdiscussion)) (subDiscussions md))
    with (map Some (map added (subDiscussions md)))
    by (rewrite map_map; reflexivity).
  pose proof (earliest_of_dates (map added (subDiscussions md)) None) as Hfold.
  destruct (fold_left _ _ _) as [t|].
  - destruct Hfold as ([Hnone|Hin] & _ & Hall); [done|]. split.
    + apply in_map_iff in Hin as (entry & <- & Hentry). eauto.
    + intros entry Hentry. apply Hall. by apply in_map.
  - destruct Hfold as [_ Hnil]. by destruct (subDiscussions md).
Qed.

Lemma getCreationDate_earliest_witness :
  getCreationDate Memory.joinedAndLeft = Some (-10) /\
  forall entry, In entry (subDiscussions Memory.joinedAndLeft) -> -10 <= added entry.
Proof.
  split; [reflexivity|].
  apply (proj2 (getCreationDate_earliest Memory.joinedAndLeft)).
Defined.

(** ** sendMessage *)

Lemma Forall2_map_left {A B C} (f : A -> B) (P : B -> C -> Prop) l ys :
  Forall2 P (map f l) ys -> Forall2 (fun x y => P (f x) y) l ys.
Proof.
  revert ys. induction l as [|x l IH]; simpl; intros ys Hall;
    inversion Hall; subst; constructor; auto.
Qed.

(** [sendMessage] sends on the discussion of every registry entry, removed
    or not: when it resolves, the Meta-Message holds, in registry order, the
    message sent on each entry; when the send fails on one entry, it
    rejects. *)
Theorem sendMessage_every_entry `{ops : SimpleDiscussionOps}
    (md : MetaDiscussion) (newMessage : NewMessage) :
  (forall metaMessage,
     sendMessage md newMessage = Ok metaMessage ->
     Forall2 (fun entry sent =>
                sd_sendMessage (subdiscussion entry) newMessage = Ok sent)
             (subDiscussions md) (constituents metaMessage)) /\
  (forall entry e,
     In entry (subDiscussions md) ->
     sd_sendMessage (subdiscussion entry) newMessage = Err e ->
     exists e', sendMessage md newMessage = Err e').
Proof.
  unfold sendMessage, getSubDiscussions. split.
  - intros metaMessage Hok.
    apply bind_Ok in Hok as (messages & Hmap & Hok). injection Hok as <-.
    apply mapM_Ok_Forall2 in Hmap. simpl.
    by apply (Forall2_map_left subdiscussion
                (fun discussion sent => sd_sendMessage discussion newMessage = Ok sent)).
  - intros entry e Hin Herr.
    destruct (mapM_Err (fun discussion => sd_sendMessage discussion newMessage)
                (map subdiscussion (subDiscussions md)) (subdiscussion entry) e)
      as [e' ->]; [by apply in_map | done | simpl; eauto].
Qed.

Lemma sendMessage_every_entry_witness :
  Forall2 (fun entry sent =>
             @sd_sendMessage Memory.ops (subdiscussion entry) {| newBody := "hi" |}
               = Ok sent)
    (subDiscussions Memory.joinedAndLeft)
    [{| messageRef := 100; body := "hi"; creationDate := 900000 |};
     {| messageRef := 100; body := "hi"; creationDate := 900000 |}] /\
  exists e', @sendMessage Memory.ops Memory.withUnreachable {| newBody := "hi" |}
             = Err e'.
Proof.
  split.
  - apply (proj1 (@sendMessage_every_entry Memory.ops Memory.joinedAndLeft
                    {| newBody := "hi" |})
             (newMetaMessage
                [{| messageRef := 100; body := "hi"; creationDate := 900000 |};
                 {| messageRef := 100; body := "hi"; creationDate := 900000 |}])).
    reflexivity.
  - apply (proj2 (@sendMessage_every_entry Memory.ops Memory.withUnreachable
                    {| newBody := "hi" |})
             (Memory.entry Memory.discussionZ 0 None) (External "unreachable")).
    + simpl. auto.
    + reflexivity.
Defined.

(** ** The relay: where the copies go *)

(** The copies of an incoming message are for the discussions of the
    registry entries, removed or not, whose id is not the id of the source:
    no copy goes back to the source, and each copy has the body of the
    message after ">>".  When the relay resolves, its Meta-Message holds
    the message sent on each of these discussions, in registry order, and
    the original last. *)
Theorem relay_never_echoes `{ops : SimpleDiscussionOps}
    (md : MetaDiscussion) (discussionSource : SimpleDiscussion)
    (messageSource : SimpleMessage) :
  let copy := {| newBody := String.append ">>" (body messageSource) |} in
  (forall target,
     In target (relayTargets md discussionSource) <->
     In target (getSubDiscussions md) /\
     discussionGlobalId target <> discussionGlobalId discussionSource) /\
  (forall target newMessage,
     In (target, newMessage) (sends (dispatchFrom md discussionSource messageSource))
     -> In target (relayTargets md discussionSource) /\ newMessage = copy) /\
  (forall metaMessage,
     relayed (dispatchFrom md discussionSource messageSource) = Ok metaMessage ->
     exists subMessages,
       constituents metaMessage = subMessages ++ [messageSource] /\
       Forall2 (fun target sent => sd_sendMessage target copy = Ok sent)
               (relayTargets md discussionSource) subMessages).
Proof.
  simpl. split; [|split].
  - intros target. unfold relayTargets. rewrite filter_In.
    destruct (String.eqb_spec (discussionGlobalId target)
                (discussionGlobalId discussionSource)); simpl; split;
      intros [Hin Hne]; split; auto; done.
  - intros target newMessage Hin. unfold dispatchFrom in Hin. simpl in Hin.
    apply in_map_iff in Hin as (t & [= <- <-] & Hin). auto.
  - intros metaMessage Hok. unfold dispatchFrom in Hok. simpl in Hok.
    apply bind_Ok in Hok as (subMessages & Hmap & Hok). injection Hok as <-.
    exists subMessages. split; [reflexivity|].
    by apply mapM_Ok_Forall2 in Hmap.
Qed.

Lemma relay_never_echoes_witness :
  In Memory.discussionY (relayTargets Memory.joinedAndLeft Memory.discussionX) /\
  exists subMessages,
    [Memory.relayedHello; Memory.hello] = subMessages ++ [Memory.hello].
Proof.
  split.
  - apply (proj1 (@relay_never_echoes Memory.ops Memory.joinedAndLeft
                    Memory.discussionX Memory.hello)).
    split; [simpl; auto | discriminate].
  - destruct (proj2 (proj2 (@relay_never_echoes Memory.ops Memory.joinedAndLeft
                              Memory.discussionX Memory.hello))
                (newMetaMessage [Memory.relayedHello; Memory.hello]) eq_refl)
      as (subMessages & Heq & _).
    exists subMessages. exact Heq.
Defined.

(** ** listen *)

Lemma attached_discussions `{events : SimpleDiscussionEvents}
    (l : list SimpleDiscussion) :
  concat (map fst (map attachEventsTo l)) = l.
Proof.
  induction l as [|x l IH]; simpl; [reflexivity | by rewrite IH].
Qed.

(** [listen] sets the flag before it subscribes the relay, whatever the
    subscriptions give, and leaves the registry as it is.  A first call on
    a meta-discussion that is not listening subscribes the relay to the
    discussion of every entry; a call on a listening meta-discussion
    resolves at once and subscribes nothing.  So a second [listen]
    subscribes nothing, also when the first one was rejected. *)
Theorem listen_once `{events : SimpleDiscussionEvents} (md : MetaDiscussion) :
  let first := listen md in
  let second := listen (fst first) in
  listening (fst first) = true /\
  subDiscussions (fst first) = subDiscussions md /\
  (listening md = false -> fst (snd first) = getSubDiscussions md) /\
  (listening md = true -> first = (md, ([], Ok tt))) /\
  second = (fst first, ([], Ok tt)).
Proof.
  simpl. unfold listen.
  destruct (listening md) eqn:Hl; simpl.
  - rewrite Hl. repeat split; auto. discriminate.
  - rewrite attached_discussions. repeat split; auto. discriminate.
Qed.

Lemma listen_once_witness :
  fst (snd (@listen MemoryMore.events Memory.withUnreachable)) =
    [Memory.discussionX; Memory.discussionZ; Memory.discussionY] /\
  snd (snd (@listen MemoryMore.events Memory.withUnreachable)) =
    Err (External "unreachable") /\
  @listen MemoryMore.events (fst (@listen MemoryMore.events Memory.withUnreachable)) =
    (withListening Memory.withUnreachable, ([], Ok tt)).
Proof.
  split; [|split; [reflexivity|]].
  - apply (proj1 (proj2 (proj2 (@listen_once MemoryMore.events
                                  Memory.withUnreachable)))).
    reflexivity.
  - apply (proj2 (proj2 (proj2 (proj2 (@listen_once MemoryMore.events
                                         Memory.withUnreachable))))).
Defined.

(** ** addParticipant *)

Lemma filter_none {A} (f : A -> bool) (l : list A) :
  (forall x, In x l -> f x = false) -> List.filter f l = [].
Proof.
  induction l as [|x l IH]; simpl; intros Hall; [reflexivity|].
  rewrite (Hall x) by auto. auto.
Qed.

(** On a meta-discussion that is not listening, the outcome is the outcome
    of [addParticipant]. *)
Lemma addParticipantRelay_not_listening `{ops : SimpleDiscussionOps}
    `{events : SimpleDiscussionEvents} `{accountOps : UserAccountOps}
    (md : MetaDiscussion) (contactAccount : ContactAccount) (now : Z) :
  listening md = false ->
  addParticipantRelay md contactAccount now =
    ([], addParticipant md contactAccount now).
Proof.
  intros Hl. unfold addParticipantRelay, addParticipant.
  destruct (List.filter _ (getSubDiscussions md)); [|reflexivity].
  destruct (List.filter _ (getAccounts (owner md))); [reflexivity|].
  destruct (ua_createDiscussion _ _); simpl; [|reflexivity].
  by rewrite Hl.
Qed.

(** When [addParticipant] resolves, the registry is the registry of before
    or the registry of before followed by one new active entry added at the
    current time; the relay is subscribed to the new discussion exactly
    when the meta-discussion is listening, and to nothing else.  When no
    sub-discussion and no account of the user knows the contact, it rejects
    with "Unknown contact". *)
Theorem addParticipant_registry `{ops : SimpleDiscussionOps}
    `{events : SimpleDiscussionEvents} `{accountOps : UserAccountOps}
    (md : MetaDiscussion) (contactAccount : ContactAccount) (now : Z) :
  (forall subscribed md',
     addParticipantRelay md contactAccount now = (subscribed, Ok md') ->
     (md' = md /\ subscribed = []) \/
     (exists newSubdiscuss,
        md' = withSubDiscussions md
                (subDiscussions md ++
                 [{| subdiscussion := newSubdiscuss; added := now;
                     removed := None |}]) /\
        subscribed = if listening md then [newSubdiscuss] else [])) /\
  ((forall discu, In discu (getSubDiscussions md) ->
      sd_localHasContact discu contactAccount = false) ->
   (forall account, In account (accounts (owner md)) ->
      ua_hasContact account contactAccount = false) ->
   addParticipantRelay md contactAccount now = ([], Err UnknownContact)).
Proof.
  unfold addParticipantRelay. split.
  - intros subscribed md'.
    destruct (List.filter _ (getSubDiscussions md)) as [|first rest].
    + destruct (List.filter _ (getAccounts (owner md))) as [|account others];
        [done|].
      destruct (ua_createDiscussion _ _) as [newSubdiscuss|e]; [|done].
      destruct (listening md); simpl.
      * destruct (sd_listen newSubdiscuss); simpl; [|done].
        intros [= <- <-]. right. eauto.
      * intros [= <- <-]. right. eauto.
    + destruct (sd_addParticipant first contactAccount); simpl; [|done].
      intros [= <- <-]. by left.
  - intros Hsubs Haccounts.
    rewrite (filter_none _ _ Hsubs).
    unfold getAccounts. by rewrite (filter_none _ _ Haccounts).
Qed.

Lemma addParticipant_registry_witness :
  @addParticipantRelay Memory.ops MemoryMore.events Memory.accountOps
    Memory.twoProtocols Memory.carol 9 = ([], Err UnknownContact).
Proof.
  apply (proj2 (@addParticipant_registry Memory.ops MemoryMore.events
                  Memory.accountOps Memory.twoProtocols Memory.carol 9)).
  - intros discu [<-|[<-|[]]]; reflexivity.
  - intros account [<-|[<-|[]]]; reflexivity.
Defined.

(** ** removeParticipants *)

Lemma firstListing_Some contactID membered subdiscuss :
  firstListing contactID membered = Some subdiscuss ->
  exists membersIDs, In (subdiscuss, membersIDs) membered /\ In contactID membersIDs.
Proof.
  induction membered as [|[d ids] rest IH]; simpl; [done|].
  destruct (indexOfFound ids contactID) eqn:Hfound.
  - intros [= <-]. exists ids. split; [by left | by apply indexOfFound_spec].
  - intros Hrest. destruct (IH Hrest) as (ids' & Hin & Hid). eauto.
Qed.

Lemma firstListing_None contactID membered :
  (forall subdiscuss membersIDs,
     In (subdiscuss, membersIDs) membered -> ~ In contactID membersIDs) ->
  firstListing contactID membered = None.
Proof.
  induction membered as [|[d ids] rest IH]; simpl; intros Hno; [reflexivity|].
  destruct (indexOfFound ids contactID) eqn:Hfound.
  - apply indexOfFound_spec in Hfound. exfalso. eapply Hno; eauto.
  - apply IH. intros; eauto.
Qed.

Lemma membered_inv `{ops : SimpleDiscussionOps} (l : list SimpleDiscussion) membered :
  mapM (fun subdiscuss =>
          parts <- sd_getParticipants subdiscuss None ;;
          Ok (subdiscuss, map contactGlobalId parts)) l = Ok membered ->
  forall subdiscuss membersIDs,
    In (subdiscuss, membersIDs) membered ->
    In subdiscuss l /\
    exists parts, sd_getParticipants subdiscuss None = Ok parts /\
                  membersIDs = map contactGlobalId parts.
Proof.
  intros Hm. apply mapM_Ok_Forall2 in Hm.
  induction Hm as [|x y l ys Hx _ IH]; intros d ids Hin; [done|].
  destruct Hin as [->|Hin].
  - apply bind_Ok in Hx as (parts & Hparts & [= <- <-]). split; [by left | eauto].
  - destruct (IH d ids Hin) as [Hl Hrest]. split; [by right | exact Hrest].
Qed.

(** [removeParticipants] calls the removal of at most one sub-discussion,
    one of the registry (removed or not) whose participants hold the id of
    the contact.  When the participants of every sub-discussion are
    obtained and none holds that id, it calls no removal and resolves. *)
Theorem removeParticipants_one_call `{ops : SimpleDiscussionOps}
    `{events : SimpleDiscussionEvents}
    (md : MetaDiscussion) (contactAccount : ContactAccount) :
  (forall subdiscuss,
     In subdiscuss (fst (removeParticipants md contactAccount)) ->
     fst (removeParticipants md contactAccount) = [subdiscuss] /\
     In subdiscuss (getSubDiscussions md) /\
     exists parts,
       sd_getParticipants subdiscuss None = Ok parts /\
       In (contactGlobalId contactAccount) (map contactGlobalId parts)) /\
  ((forall subdiscuss, In subdiscuss (getSubDiscussions md) ->
      exists parts,
        sd_getParticipants subdiscuss None = Ok parts /\
        ~ In (contactGlobalId contactAccount) (map contactGlobalId parts)) ->
   removeParticipants md contactAccount = ([], Ok tt)).
Proof.
  unfold removeParticipants. split.
  - intros subdiscuss.
    destruct (mapM _ (getSubDiscussions md)) as [membered|e] eqn:Hm; [|done].
    destruct (firstListing _ membered) as [found|] eqn:Hfound; [|done].
    simpl. intros [<-|[]].
    destruct (firstListing_Some _ _ _ Hfound) as (ids & Hin & Hid).
    destruct (membered_inv _ _ Hm _ _ Hin) as (Hsub & parts & Hparts & ->).
    eauto.
  - intros Hall.
    destruct (mapM_all_Ok
      (fun subdiscuss =>
         parts <- sd_getParticipants subdiscuss None ;;
         Ok (subdiscuss, map contactGlobalId parts))
      (getSubDiscussions md)) as [membered Hm].
    + intros d Hd. destruct (Hall d Hd) as (parts & -> & _). simpl. eauto.
    + rewrite Hm. rewrite firstListing_None; [reflexivity|].
      intros d ids Hin.
      destruct (membered_inv _ _ Hm _ _ Hin) as (Hsub & parts & Hparts & ->).
      destruct (Hall d Hsub) as (parts' & Hparts' & Hno). congruence.
Qed.

Lemma removeParticipants_one_call_witness :
  @removeParticipants Memory.ops MemoryMore.events Memory.twoProtocols Memory.carol
    = ([], Ok tt) /\
  fst (@removeParticipants Memory.ops MemoryMore.events Memory.twoProtocols
         Memory.bob) = [Memory.discussionY].
Proof.
  split.
  - apply (proj2 (@removeParticipants_one_call Memory.ops MemoryMore.events
                    Memory.twoProtocols Memory.carol)).
    intros subdiscuss [<-|[<-|[]]]; eexists; (split; [reflexivity|]);
      simpl; intros [H|[]]; discriminate H.
  - apply (proj1 (@removeParticipants_one_call Memory.ops MemoryMore.events
                    Memory.twoProtocols Memory.bob) Memory.discussionY).
    simpl. auto.
Defined.

(** ** User.getOrCreateDiscussion: the heterogeneous case *)









(** ** The accounts of a user *)

Lemma indexOf_absent ids id : ~ In id ids -> indexOf ids id = -1.
Proof.
  induction ids as [|first rest IH]; simpl; [done|].
  intros Hno. destruct (String.eqb_spec first id) as [->|Hne]; [tauto|].
  rewrite IH by tauto. reflexivity.
Qed.

Lemma indexOf_found ids id :
  In id ids ->
  exists i, indexOf ids id = Z.of_nat i /\ ids !! i = Some id /\
            forall k, (k < i)%nat -> ids !! k <> Some id.
Proof.
  induction ids as [|first rest IH]; simpl; [done|].
  intros Hin. destruct (String.eqb_spec first id) as [->|Hne].
  - exists 0%nat. repeat split. intros k Hk. lia.
  - destruct IH as (i & -> & Hi & Hfirst); [by destruct Hin|].
    exists (S i). destruct (Z.eqb_spec (Z.of_nat i) (-1)) as [Hneg|_]; [lia|].
    repeat split; [lia | exact Hi |].
    intros [|k] Hk; simpl; [congruence | apply Hfirst; lia].
Qed.

Lemma indexOf_owned ids id : In id ids <-> indexOf ids id <> -1.
Proof.
  split.
  - intros Hin. destruct (indexOf_found ids id Hin) as (i & -> & _). lia.
  - intros Hne. destruct (in_dec String.string_dec id ids) as [Hin|Hno]; [done|].
    by apply indexOf_absent in Hno.
Qed.

Lemma withAccounts_same u : withAccounts u (accounts u) = u.
Proof. by destruct u. Qed.

(** [addAccount] rejects with "Already existing account", and leaves the
    user as it is, exactly when the global id of the account is the id of
    an owned account; otherwise the account is owned last.  So the ids of
    the owned accounts stay distinct. *)
Theorem addAccount_unique_ids (u : User) (account : UserAccount) :
  (In (accountGlobalId account) (getAccountsIDs u) ->
   addAccount u account = (u, Failed AlreadyExistingAccount)) /\
  (~ In (accountGlobalId account) (getAccountsIDs u) ->
   addAccount u account = (withAccounts u (accounts u ++ [account]), Done tt)) /\
  (NoDup (getAccountsIDs u) -> NoDup (getAccountsIDs (fst (addAccount u account)))).
Proof.
  unfold addAccount.
  destruct (Z.eqb_spec (indexOf (getAccountsIDs u) (accountGlobalId account)) (-1))
    as [Habsent|Howned].
  - assert (Hno : ~ In (accountGlobalId account) (getAccountsIDs u))
      by (rewrite indexOf_owned; tauto).
    repeat split; [tauto|].
    intros Hnd. simpl. unfold getAccountsIDs, getAccounts in *. simpl.
    rewrite map_app. simpl. apply NoDup_app. repeat split; [exact Hnd| |].
    + intros id Hid Hin. apply list_elem_of_In in Hin.
      destruct Hin as [Heq|[]]. subst id. apply Hno. by apply list_elem_of_In.
    + apply NoDup_singleton.
  - apply indexOf_owned in Howned. repeat split; tauto.
Qed.

Lemma addAccount_unique_ids_witness :
  addAccount Memory.user Memory.accountX = (Memory.user, Failed AlreadyExistingAccount) /\
  addAccount Memory.user MemoryMore.accountZ =
    ({| globalUsername := "u";
        accounts := [Memory.accountX; Memory.accountY; MemoryMore.accountZ] |},
     Done tt).
Proof.
  split.
  - apply (proj1 (addAccount_unique_ids Memory.user Memory.accountX)).
    simpl. auto.
  - apply (proj1 (proj2 (addAccount_unique_ids Memory.user MemoryMore.accountZ))).
    simpl. intros [H|[H|[]]]; discriminate H.
Defined.

(** [removeAccount] rejects with "Unknown account", and leaves the user as
    it is, when no owned account has the global id of the account;
    otherwise it takes out the first owned account with that id and keeps
    the others in their order.  When the ids of the owned accounts are
    distinct, no owned account has that id afterwards. *)
Theorem removeAccount_detaches (u : User) (account : UserAccount) :
  (~ In (accountGlobalId account) (getAccountsIDs u) ->
   removeAccount u account = (u, Failed UnknownAccount)) /\
  (In (accountGlobalId account) (getAccountsIDs u) ->
   exists i owned,
     accounts u !! i = Some owned /\
     accountGlobalId owned = accountGlobalId account /\
     (forall k other, (k < i)%nat -> accounts u !! k = Some other ->
                      accountGlobalId other <> accountGlobalId account) /\
     removeAccount u account = (withAccounts u (delete i (accounts u)), Done tt) /\
     (NoDup (getAccountsIDs u) ->
      ~ In (accountGlobalId account)
           (getAccountsIDs (fst (removeAccount u account))))).
Proof.
  unfold removeAccount. split.
  - intros Hno. by rewrite (indexOf_absent _ _ Hno).
  - intros Hin.
    destruct (indexOf_found _ _ Hin) as (i & Hindex & Hi & Hfirst).
    rewrite Hindex.
    destruct (Z.eqb_spec (Z.of_nat i) (-1)) as [Hneg|_]; [lia|].
    rewrite Nat2Z.id.
    unfold getAccountsIDs, getAccounts in *.
    rewrite lookup_map in Hi.
    destruct (accounts u !! i) as [owned|] eqn:Howned; [|done].
    injection Hi as Hid.
    exists i, owned. repeat split; auto.
    + intros k other Hk Hother Heq. apply (Hfirst k Hk).
      by rewrite lookup_map, Hother, <- Heq.
    + intros Hnd. simpl.
      rewrite <- (take_drop_middle _ _ _ Howned) in Hnd.
      rewrite map_app in Hnd. simpl in Hnd.
      apply NoDup_app in Hnd as (_ & Hdisj & Hnd).
      apply NoDup_cons in Hnd as [Hlater _].
      rewrite delete_take_drop, map_app. intros Hafter.
      apply in_app_or in Hafter as [Hbefore|Hafter].
      * apply (Hdisj (accountGlobalId account)).
        -- by apply list_elem_of_In.
        -- rewrite Hid. apply elem_of_cons. by left.
      * apply Hlater. rewrite Hid. by apply list_elem_of_In.
Qed.

Lemma removeAccount_detaches_witness :
  removeAccount Memory.user MemoryMore.accountZ = (Memory.user, Failed UnknownAccount) /\
  exists i owned,
    accounts Memory.user !! i = Some owned /\
    removeAccount Memory.user Memory.accountX =
      (withAccounts Memory.user (delete i (accounts Memory.user)), Done tt).
Proof.
  split.
  - apply (proj1 (removeAccount_detaches Memory.user MemoryMore.accountZ)).
    simpl. intros [H|[H|[]]]; discriminate H.
  - destruct (proj2 (removeAccount_detaches Memory.user Memory.accountX))
      as (i & owned & Hi & _ & _ & Hremove & _); [simpl; auto|].
    exists i, owned. split; [exact Hi | exact Hremove].
Defined.

(** An account that [addAccount] has just added is the one [removeAccount]
    takes out: adding an account whose id is not owned and removing it
    gives back the user of before. *)
Theorem addAccount_removeAccount (u : User) (account : UserAccount) :
  ~ In (accountGlobalId account) (getAccountsIDs u) ->
  snd (addAccount u account) = Done tt /\
  removeAccount (fst (addAccount u account)) account = (u, Done tt).
Proof.
  intros Hno. unfold addAccount. rewrite (indexOf_absent _ _ Hno). simpl.
  split; [reflexivity|].
  unfold removeAccount, getAccountsIDs, getAccounts in *. simpl.
  assert (Hin : In (accountGlobalId account)
                   (map accountGlobalId (accounts u ++ [account]))).
  { rewrite map_app. apply in_or_app. right. by left. }
  destruct (indexOf_found _ _ Hin) as (i & Hindex & Hi & Hfirst).
  rewrite Hindex.
  destruct (Z.eqb_spec (Z.of_nat i) (-1)) as [Hneg|_]; [lia|].
  rewrite Nat2Z.id.
  assert (i = length (accounts u)) as ->.
  { rewrite map_app in Hi. simpl in Hi.
    destruct (Nat.lt_trichotomy i (length (accounts u))) as [Hlt|[Heq|Hgt]].
    - rewrite lookup_app_l in Hi by (rewrite length_map; lia).
      exfalso. apply Hno. apply list_elem_of_In. by eapply list_elem_of_lookup_2.
    - exact Heq.
    - apply lookup_lt_Some in Hi. rewrite length_app, length_map in Hi.
      simpl in Hi. lia. }
  rewrite delete_middle, app_nil_r. by destruct u.
Qed.

Lemma addAccount_removeAccount_witness :
  removeAccount (fst (addAccount Memory.user MemoryMore.accountZ)) MemoryMore.accountZ
    = (Memory.user, Done tt).
Proof.
  apply (proj2 (addAccount_removeAccount Memory.user MemoryMore.accountZ
                  ltac:(simpl; intros [H|[H|[]]]; discriminate H))).
Defined.

(** ** The discussions of a user *)

Lemma selectDiscussions_counted (o : GetDiscussionsOptions) (max : Z)
    (discussions : list SimpleDiscussion) : forall counter,
  maxDiscussions o = Some max -> max <> 0 -> 0 <= counter ->
  selectDiscussions (Some o) counter discussions =
    take (Z.to_nat (max - counter))
         (List.filter
            (fun discuss =>
               match discussionFilter o with
               | Some keep => keep (Simple discuss)
               | None => true
               end) discussions).
Proof.
  intros counter Hmax Hne. revert counter.
  assert (Htruthy : truthy max = true).
  { unfold truthy. by destruct (Z.eqb_spec max 0). }
  induction discussions as [|discuss rest IH]; intros counter Hcounter; simpl.
  - by rewrite take_nil.
  - rewrite Hmax, Htruthy. simpl.
    destruct (match discussionFilter o with
              | Some keep => keep (Simple discuss)
              | None => true
              end).
    + destruct (Z.gtb_spec (counter + 1) max) as [Hover|Hunder].
      * rewrite IH by lia.
        replace (Z.to_nat (max - (counter + 1))) with 0%nat by lia.
        replace (Z.to_nat (max - counter)) with 0%nat by lia.
        reflexivity.
      * rewrite IH by lia.
        replace (Z.to_nat (max - counter))
          with (S (Z.to_nat (max - (counter + 1)))) by lia.
        reflexivity.
    + by apply IH.
Qed.

(** The selection made among the discussions of one account keeps, in
    order, the discussions the filter of the options accepts (all of them
    without a filter), and only the first [max] of these when the options
    have a [max] other than 0; without options it keeps them all. *)
Theorem selectDiscussions_first_max (options : option GetDiscussionsOptions)
    (discussions : list SimpleDiscussion) :
  selectDiscussions options 0 discussions =
    match options with
    | None => discussions
    | Some o =>
      let accepted :=
        List.filter
          (fun discuss =>
             match discussionFilter o with
             | Some keep => keep (Simple discuss)
             | None => true
             end) discussions in
      match maxDiscussions o with
      | Some max => if max =? 0 then accepted else take (Z.to_nat max) accepted
      | None => accepted
      end
    end.
Proof.
  destruct options as [o|]; simpl.
  - destruct (maxDiscussions o) as [max|] eqn:Hmax.
    + destruct (Z.eqb_spec max 0) as [->|Hne].
      * induction discussions as [|discuss rest IH]; simpl; [reflexivity|].
        rewrite Hmax. simpl. rewrite IH.
        by destruct (match discussionFilter o with
                     | Some keep => keep (Simple discuss)
                     | None => true
                     end).
      * rewrite (selectDiscussions_counted o max) by (auto; lia).
        by rewrite Z.sub_0_r.
    + induction discussions as [|discuss rest IH]; simpl; [reflexivity|].
      rewrite Hmax, IH.
      by destruct (match discussionFilter o with
                   | Some keep => keep (Simple discuss)
                   | None => true
                   end).
  - induction discussions as [|discuss rest IH]; simpl; [reflexivity|].
    by rewrite IH.
Qed.

Lemma discarded_concat {A} (selected : list (list A)) : forall discussions : list A,
  fold_left (fun discussions discuss =>
               let _ := lodash_concat discussions discuss in discussions)
            selected discussions = discussions.
Proof.
  induction selected as [|discuss rest IH]; intros discussions; simpl; auto.
Qed.

Lemma getAllSimpleDiscussions_listed `{discussions : UserAccountDiscussions}
    (u : User) (options : option GetDiscussionsOptions) :
  (forall account, In account (accounts u) ->
     exists held, ua_getDiscussions account = Ok held) ->
  getAllSimpleDiscussions u options = Done [].
Proof.
  intros Hall. unfold getAllSimpleDiscussions.
  destruct (mapM_all_Ok
    (fun account =>
       discuss <- ua_getDiscussions account ;;
       Ok (selectDiscussions options 0 discuss)) (accounts u)) as [selected ->].
  - intros account Hin. destruct (Hall account Hin) as [held ->]. simpl. eauto.
  - by rewrite discarded_concat.
Qed.

(** [getAllSimpleDiscussions] never resolves to anything but the empty
    list, whatever the accounts hold and whatever the options: the
    discussions selected for each account go to [_.concat], whose result is
    dropped.  It resolves as soon as the discussions of every account are
    obtained. *)
Theorem getAllSimpleDiscussions_empty `{discussions : UserAccountDiscussions}
    (u : User) (options : option GetDiscussionsOptions) :
  (forall found, getAllSimpleDiscussions u options = Done found -> found = []) /\
  ((forall account, In account (accounts u) ->
      exists held, ua_getDiscussions account = Ok held) ->
   getAllSimpleDiscussions u options = Done []).
Proof.
  split; [|apply getAllSimpleDiscussions_listed].
  unfold getAllSimpleDiscussions.
  intros found. destruct (mapM _ (accounts u)); [|done].
  intros [= <-]. apply discarded_concat.
Qed.

Lemma getAllSimpleDiscussions_empty_witness :
  @ua_getDiscussions MemoryMore.discussions Memory.accountX =
    Ok [Memory.discussionX; Memory.discussionX2] /\
  @getAllSimpleDiscussions MemoryMore.discussions Memory.user None = Done [].
Proof.
  split; [reflexivity|].
  apply (proj2 (@getAllSimpleDiscussions_empty MemoryMore.discussions
                  Memory.user None)).
  intros account [<-|[<-|[]]]; simpl; eauto.
Defined.

(** [getAllDiscussions] never resolves: it rejects with the rejection of
    an account that cannot list its discussions, and with "todo", the
    rejection of [getAllMetaDiscussions], when every account can. *)
Theorem getAllDiscussions_rejects `{discussions : UserAccountDiscussions}
    (u : User) (options : option GetDiscussionsOptions) :
  (forall found, getAllDiscussions u options <> Done found) /\
  ((forall account, In account (accounts u) ->
      exists held, ua_getDiscussions account = Ok held) ->
   getAllDiscussions u options = Failed Todo).
Proof.
  unfold getAllDiscussions, getAllMetaDiscussions. split.
  - intros found. by destruct (getAllSimpleDiscussions u options).
  - intros Hall.
    by rewrite (getAllSimpleDiscussions_listed u options Hall).
Qed.

Lemma getAllDiscussions_rejects_witness :
  @getAllDiscussions MemoryMore.discussions Memory.user None = Failed Todo.
Proof.
  apply (proj2 (@getAllDiscussions_rejects MemoryMore.discussions Memory.user None)).
  intros account [<-|[<-|[]]]; simpl; eauto.
Defined.

(** ** Leaving a discussion *)

Lemma allDone_Failed (outcomes : list (UserResult unit)) e :
  In (Failed e) outcomes -> exists e', allDone outcomes = Failed e'.
Proof.
  induction outcomes as [|[[]|e0] rest IH]; simpl; [done| |eauto].
  intros [Hx|Hin]; [done | auto].
Qed.

(** Leaving a discussion calls [api.leaveDiscussion] only on accounts the
    user owns, one call for each simple discussion of an owned account that
    the discussion is made of, and the argument of the call is the global
    id of the account itself.  When one of these simple discussions belongs
    to an account the user does not own, the call rejects ("Bad owner" for
    a simple discussion, with no call made). *)
Theorem leaveDiscussion_owned_accounts `{discussions : UserAccountDiscussions}
    (u : User) (discussion : Discussion) :
  (forall account argument,
     In (account, argument) (fst (leaveDiscussion u discussion)) <->
     argument = account /\ In account (getAccountsIDs u) /\
     exists simple, In simple (simpleDiscussionsOf discussion) /\
                    localAccountId simple = account) /\
  (forall simple,
     In simple (simpleDiscussionsOf discussion) ->
     ~ In (localAccountId simple) (getAccountsIDs u) ->
     exists e, snd (leaveDiscussion u discussion) = Failed e) /\
  (forall simple,
     discussion = Simple simple ->
     ~ In (localAccountId simple) (getAccountsIDs u) ->
     leaveDiscussion u discussion = ([], Failed BadOwner)).
Proof.
  assert (Hsimple : forall simple account argument,
    In (account, argument) (fst (leaveSimpleDiscussion u simple)) <->
    argument = account /\ In account (getAccountsIDs u) /\
    localAccountId simple = account).
  { intros simple account argument. unfold leaveSimpleDiscussion.
    destruct (Z.eqb_spec (indexOf (getAccountsIDs u) (localAccountId simple)) (-1))
      as [Habsent|Howned]; simpl.
    - split; [done|]. intros (_ & Hin & <-).
      apply indexOf_owned in Hin. done.
    - apply indexOf_owned in Howned. split.
      + intros [[= <- <-]|[]]. auto.
      + intros (-> & _ & <-). by left. }
  assert (Hforeign : forall simple,
    ~ In (localAccountId simple) (getAccountsIDs u) ->
    leaveSimpleDiscussion u simple = ([], Failed BadOwner)).
  { intros simple Hno. unfold leaveSimpleDiscussion.
    by rewrite (indexOf_absent _ _ Hno). }
  destruct discussion as [simple|meta]; simpl.
  - split; [|split].
    + intros account argument. rewrite Hsimple. split.
      * intros (Harg & Hin & Hacc). eauto 6.
      * intros (Harg & Hin & s & [<-|[]] & Hacc). auto.
    + intros s [<-|[]] Hno. rewrite (Hforeign _ Hno). simpl. eauto.
    + intros s [= <-] Hno. auto.
  - unfold leaveMetaDiscussion. simpl. split; [|split].
    + intros account argument. split.
      * intros Hcall. apply in_concat in Hcall as (calls & Hcalls & Hin).
        apply in_map_iff in Hcalls as (outcome & <- & Houtcome).
        apply in_map_iff in Houtcome as (s & <- & Hs).
        apply Hsimple in Hin as (Harg & Hin & Hacc). eauto 6.
      * intros (Harg & Hin & s & Hs & Hacc).
        apply in_concat. exists (fst (leaveSimpleDiscussion u s)). split.
        -- apply in_map, in_map. exact Hs.
        -- by apply Hsimple.
    + intros s Hs Hno. apply (allDone_Failed _ BadOwner).
      apply in_map_iff. exists (leaveSimpleDiscussion u s).
      split; [by rewrite (Hforeign _ Hno) | by apply in_map].
    + done.
Qed.

Lemma leaveDiscussion_owned_accounts_witness :
  @leaveDiscussion MemoryMore.discussions Memory.user (Simple Memory.discussionZ) =
    ([], Failed BadOwner) /\
  In ("y:me", "y:me")
     (fst (@leaveDiscussion MemoryMore.discussions Memory.user
             (Meta Memory.joinedAndLeft))).
Proof.
  split.
  - apply (proj2 (proj2 (@leaveDiscussion_owned_accounts MemoryMore.discussions
                           Memory.user (Simple Memory.discussionZ)))
             Memory.discussionZ eq_refl).
    simpl. intros [H|[H|[]]]; discriminate H.
  - apply (proj1 (@leaveDiscussion_owned_accounts MemoryMore.discussions
                    Memory.user (Meta Memory.joinedAndLeft))).
    split; [reflexivity|]. split; [simpl; auto|].
    exists Memory.discussionY. simpl. auto.
Defined.
